(** * ts-node-api-base: the authorization core

    A shallow embedding of the token service ([AuthService]), the permission
    catalog ([PermissionService]) and the [authenticate] / [authorize]
    middlewares, with the properties of the specification proved on it.

    Conventions of the embedding:
    - the relational stores are lists in stored order; [findOne] is the
      first row that satisfies the condition, [find] is the filter;
    - the in-process cache of the catalog is a [gmap string string];
    - asynchronous service methods are computations of the monad [M]:
      they read and update the [World], may throw, and emit the calls they
      make to their collaborators (repositories, jsonwebtoken) as [Event]s;
    - the clock is passed as [now], in seconds (jsonwebtoken's timestamps);
    - jsonwebtoken and the platform's URL parser are libraries: the first is
      modelled by its contract ([jwt_sign], [jwt_verify], [jwt_decode]), the
      second is a parameter of the middleware section, total there and
      failing in [Fallible];
    - the database's reading of a text bound to an integer column is a
      parameter of [logout]; [Pg.integerInput] is its decimal instance.
    A lost connection is outside the model. The constraints of the
    [token_blacklist] table (integer owner, timestamp range, unique token)
    are part of [saveBlacklist], and the check of the relations that a find
    names is part of [RoleService.findOne]; the other repository calls
    return.

    The second part of the development covers the services around that
    core: login, user deactivation, [RoleService], [UserRoleService],
    [InvitationTokenService] and the usage statistics of the catalog. The
    tables that only these services touch (roles, invitations) are passed
    and returned explicitly. *)

From Stdlib Require Import ZArith Ascii String List Bool Lia Permutation
  Sorted.
From stdpp Require Import gmap strings list fin_maps.

Local Open Scope Z_scope.

(** ** JavaScript strings *)

Module Js.

(** [s.split(sep)] for a one-character separator. *)
Fixpoint split (sep : ascii) (s : string) : list string :=
  match s with
  | EmptyString => [EmptyString]
  | String c rest =>
      if Ascii.eqb c sep then EmptyString :: split sep rest
      else match split sep rest with
           | [] => [String c EmptyString]
           | seg :: segs => String c seg :: segs
           end
  end.

(** Truthiness of a string: only the empty string is falsy. *)
Definition truthy (s : string) : bool :=
  match s with EmptyString => false | String _ _ => true end.

(** [arr.filter(Boolean)] on an array of strings. *)
Definition filterBoolean (l : list string) : list string :=
  List.filter truthy l.

(** [s.includes(c)] for a one-character needle. *)
Fixpoint includes (c : ascii) (s : string) : bool :=
  match s with
  | EmptyString => false
  | String d rest => Ascii.eqb d c || includes c rest
  end.

(** Number of occurrences of a character. *)
Fixpoint count (c : ascii) (s : string) : nat :=
  match s with
  | EmptyString => O
  | String d rest => ((if Ascii.eqb d c then 1 else 0) + count c rest)%nat
  end.

(** [s.startsWith(p)]. *)
Definition startsWith (p s : string) : bool := String.prefix p s.

(** [s.substring(1)]. *)
Definition substring1 (s : string) : string :=
  match s with EmptyString => EmptyString | String _ rest => rest end.

(** [arr.includes(x)] on an array of strings. *)
Definition arrayIncludes (x : string) (l : list string) : bool :=
  existsb (String.eqb x) l.

(** [[...new Set(arr)]]: duplicates removed, first occurrences kept in
    insertion order. *)
Fixpoint uniqFrom (seen l : list string) : list string :=
  match l with
  | [] => []
  | x :: rest =>
      if arrayIncludes x seen then uniqFrom seen rest
      else x :: uniqFrom (x :: seen) rest
  end.

Definition uniq (l : list string) : list string := uniqFrom [] l.

Definition isDigit (c : ascii) : bool :=
  let n := nat_of_ascii c in (Nat.leb 48 n && Nat.leb n 57)%bool.

Definition lowerChar (c : ascii) : ascii :=
  let n := nat_of_ascii c in
  if (Nat.leb 65 n && Nat.leb n 90)%bool then ascii_of_nat (n + 32) else c.

(** [s.toLowerCase()] on ASCII text (HTTP method names). *)
Fixpoint toLowerCase (s : string) : string :=
  match s with
  | EmptyString => EmptyString
  | String c rest => String (lowerChar c) (toLowerCase rest)
  end.

End Js.

(** ** PostgreSQL *)

Module Pg.

Definition isSpace (c : ascii) : bool :=
  existsb (Ascii.eqb c) [" "; "009"; "010"; "011"; "012"; "013"]%char.

Fixpoint dropSpaces (s : string) : string :=
  match s with
  | String c rest => if isSpace c then dropSpaces rest else s
  | EmptyString => EmptyString
  end.

(** The value of the leading decimal digits, and what follows them. *)
Fixpoint readDigits (acc : Z) (s : string) : Z * string :=
  match s with
  | String c rest =>
      if Js.isDigit c
      then readDigits (acc * 10 + (Z.of_nat (nat_of_ascii c) - 48)) rest
      else (acc, s)
  | EmptyString => (acc, EmptyString)
  end.

(** The input of a 32-bit integer column for a decimal literal: blanks, an
    optional sign, digits, blanks. Any other text is rejected. *)
Definition integerInput (s : string) : option Z :=
  let s := dropSpaces s in
  let signed :=
    match s with
    | String "-" rest => (true, rest)
    | String "+" rest => (false, rest)
    | _ => (false, s)
    end in
  match snd signed with
  | String c _ =>
      if Js.isDigit c then
        let read := readDigits 0 (snd signed) in
        let v := if fst signed : bool then - fst read else fst read in
        if String.eqb (dropSpaces (snd read)) ""
           && (-2147483648 <=? v) && (v <=? 2147483647)
        then Some v else None
      else None
  | EmptyString => None
  end.

End Pg.

(** ** Entities *)

(** [Role]: the columns that are serialised into a token. *)
Record Role := {
  role_id : Z;
  role_name : string;
  role_description : string
}.

(** [UserRole]: the join row; [ur_role] is the loaded relation, which may be
    null. *)
Record UserRole := {
  ur_roleId : Z;
  ur_role : option Role
}.

Record User := {
  user_id : Z;
  pid : string;
  email : string;
  isActive : bool;
  userRoles : list UserRole
}.

(** The getter [User.roles]:
    [userRoles.map(userRole => userRole.role).filter(Boolean)]. *)
Definition roles (u : User) : list Role := omap ur_role (userRoles u).

Record Permission := {
  method : string;
  route : string;
  action : string
}.

Record RolePermission := {
  rp_role : Role;
  rp_permission : Permission
}.

(** ** jsonwebtoken *)

(** The payload of a token as [jwt.decode] returns it. A claim that is
    absent or empty is the empty string for [sub] and [typ] (both are falsy
    in the source's tests); [roles] of an access token are the serialised
    [Role] entities. *)
Record Claims := {
  sub : string;
  typ : string;
  claim_email : option string;
  claim_roles : option (list Role);
  iat : option Z;
  exp : option Z
}.

(** A token string, read structurally: either a well-formed JWS with a
    payload and the key under which its signature verifies, or a string that
    does not decode. Two tokens are the same string exactly when they are
    equal here. *)
Inductive Token :=
| Jws (payload : Claims) (key : string)
| Opaque (raw : string).

#[global] Instance Role_eq_dec : EqDecision Role.
Proof. solve_decision. Defined.
#[global] Instance UserRole_eq_dec : EqDecision UserRole.
Proof. solve_decision. Defined.
#[global] Instance Permission_eq_dec : EqDecision Permission.
Proof. solve_decision. Defined.
#[global] Instance Claims_eq_dec : EqDecision Claims.
Proof. solve_decision. Defined.
#[global] Instance Token_eq_dec : EqDecision Token.
Proof. solve_decision. Defined.

Inductive TokenType := access | refresh.

Definition typeTag (t : TokenType) : string :=
  match t with access => "access" | refresh => "refresh" end.

Record JwtConfig := {
  secret : string;
  accessTokenExpiry : Z;   (* seconds *)
  refreshTokenExpiry : Z   (* seconds *)
}.

(** What [jwt.verify] throws. *)
Inductive JwtError := JsonWebTokenError | TokenExpiredError.

(** [jwt.sign(payload, secret, { expiresIn })] at time [now]. *)
Definition jwt_sign (p : Claims) (k : string) (expiresIn now : Z) : Token :=
  Jws {| sub := sub p; typ := typ p; claim_email := claim_email p;
         claim_roles := claim_roles p;
         iat := Some now; exp := Some (now + expiresIn) |} k.

(** [jwt.verify(token, secret)] at time [now]: the signature must verify
    under [secret] and [exp], when present, must lie in the future. *)
Definition jwt_verify (t : Token) (k : string) (now : Z) : JwtError + Claims :=
  match t with
  | Opaque _ => inl JsonWebTokenError
  | Jws p k' =>
      if negb (String.eqb k' k) then inl JsonWebTokenError
      else match exp p with
           | Some e => if e <=? now then inl TokenExpiredError else inr p
           | None => inr p
           end
  end.

(** [jwt.decode(token)]: the payload, without any check; [None] is null. *)
Definition jwt_decode (t : Token) : option Claims :=
  match t with
  | Jws p _ => Some p
  | Opaque _ => None
  end.

(** ** Stores, exceptions and the service monad *)

(** [TokenBlacklist] entities as the service builds them. [expiresAt] is the
    time value of the [Date], in milliseconds; [userId] is the text that is
    bound to the integer column [user_id]. *)
Record TokenBlacklist := {
  token : Token;
  expiresAt : Z;
  userId : string;
  reason : string
}.

Record World := {
  users : list User;
  permissions : list Permission;
  rolePermissions : list RolePermission;
  tokenBlacklist : list TokenBlacklist;
  cache : gmap string string
}.

(** Calls to collaborators, in the order they are made. *)
Inductive Event :=
| EvBlacklistFindOne (t : Token)
| EvBlacklistSave (row : TokenBlacklist)
| EvJwtVerify (t : Token)
| EvUserFindOne (p : string)
| EvRolePermissionExists (m a : string)
| EvPermissionFindOne (m r : string)
| EvPermissionFindOneTriple (m r a : string)
| EvPermissionFind (m : string)
| EvPermissionSave (p : Permission).

(** What the body of [validateToken] can throw before the catch clause
    rewraps it. *)
Inductive Cause :=
| TokenInvalidated
| JwtFailed (e : JwtError)
| InvalidTokenType
| UserGoneOrInactive
| RolesChanged
| TypeError.

Inductive Exception :=
| NoTokenProvided                 (* UnauthorizedException('No token provided') *)
| InvalidToken (c : Cause)        (* UnauthorizedException(`Invalid token: ${error}`) *)
| ForbiddenException
| BadRequestException
| PermissionAlreadyExists         (* Error('Permission already exists ...') *)
| ActionFormatError               (* Error('Action must follow the format ...') *)
| QueryFailedError                (* the database rejects a statement *)
| InvalidUrlError.                (* TypeError: Invalid URL, of [new URL] *)

(** The HTTP status the error middleware and the controllers answer with. *)
Definition status (e : Exception) : Z :=
  match e with
  | NoTokenProvided | InvalidToken _ => 401
  | ForbiddenException => 403
  | BadRequestException => 400
  | PermissionAlreadyExists => 409
  | ActionFormatError => 400
  | QueryFailedError | InvalidUrlError => 500
  end.

Definition isUnauthorized (e : Exception) : bool := status e =? 401.

Inductive Res (E A : Type) :=
| Ok (a : A)
| Throw (e : E).
Arguments Ok {E A} a.
Arguments Throw {E A} e.

Definition M (E A : Type) : Type := World -> Res E A * World * list Event.

Definition ret {E A} (a : A) : M E A := fun w => (Ok a, w, []).

Definition throw {E A} (e : E) : M E A := fun w => (Throw e, w, []).

Definition bind {E A B} (m : M E A) (k : A -> M E B) : M E B :=
  fun w =>
    match m w with
    | (Ok a, w1, ev1) =>
        match k a w1 with (r, w2, ev2) => (r, w2, ev1 ++ ev2) end
    | (Throw e, w1, ev1) => (Throw e, w1, ev1)
    end.

(** [try { m } catch (error) { throw h(error) }]. *)
Definition rethrow {E E' A} (h : E -> E') (m : M E A) : M E' A :=
  fun w =>
    match m w with
    | (Ok a, w1, ev) => (Ok a, w1, ev)
    | (Throw e, w1, ev) => (Throw (h e), w1, ev)
    end.

(** [try { m } catch { return a }]. *)
Definition recover {E E' A} (a : A) (m : M E A) : M E' A :=
  fun w =>
    match m w with
    | (Ok x, w1, ev) => (Ok x, w1, ev)
    | (Throw _, w1, ev) => (Ok a, w1, ev)
    end.

Definition emit {E} (e : Event) : M E unit := fun w => (Ok tt, w, [e]).

Definition gets {E A} (f : World -> A) : M E A := fun w => (Ok (f w), w, []).

Definition modify {E} (f : World -> World) : M E unit :=
  fun w => (Ok tt, f w, []).

Notation "'let!' x ':=' m 'in' k" := (bind m (fun x => k))
  (at level 10, x name, m at level 100, k at level 200).
Notation "'run!' m 'in' k" := (bind m (fun _ => k))
  (at level 10, m at level 100, k at level 200).

Definition result {E A} (r : Res E A * World * list Event) : Res E A := r.1.1.
Definition world {E A} (r : Res E A * World * list Event) : World := r.1.2.
Definition events {E A} (r : Res E A * World * list Event) : list Event := r.2.

Definition setTokenBlacklist (l : list TokenBlacklist) (w : World) : World :=
  {| users := users w; permissions := permissions w;
     rolePermissions := rolePermissions w; tokenBlacklist := l;
     cache := cache w |}.

Definition setPermissions (l : list Permission) (w : World) : World :=
  {| users := users w; permissions := l;
     rolePermissions := rolePermissions w;
     tokenBlacklist := tokenBlacklist w; cache := cache w |}.

Definition setCache (c : gmap string string) (w : World) : World :=
  {| users := users w; permissions := permissions w;
     rolePermissions := rolePermissions w;
     tokenBlacklist := tokenBlacklist w; cache := c |}.

Definition setUsers (l : list User) (w : World) : World :=
  {| users := l; permissions := permissions w;
     rolePermissions := rolePermissions w;
     tokenBlacklist := tokenBlacklist w; cache := cache w |}.

(** ** AuthService (src/services/auth.service.ts) *)

(** An element of the array bound to [:...userRoles] in the query of
    [isAuthorized]. The method is documented, declared and tested with role
    names (['ADMIN', 'USER']). The array that [authorize] passes is
    [req.user.roles], the [roles] claim of the decoded token, which
    [generateAccessToken] fills with the [Role] entities of [user.roles] and
    from which [validateToken] reads [decodedRole.name]. A bound parameter
    that is an object reaches the database as the JSON text of the object,
    which is never equal to the name column of a role. *)
Inductive RoleParam :=
| ParamName (n : string)
| ParamEntity (r : Role).

Definition nameIn (n : string) (params : list RoleParam) : bool :=
  existsb (fun p => match p with
                    | ParamName s => String.eqb n s
                    | ParamEntity _ => false
                    end) params.

Section AuthService.

Variable cfg : JwtConfig.

Definition generateAccessToken (user : User) (now : Z) : Token :=
  let payload := {| sub := pid user; typ := "access";
                    claim_email := Some (email user);
                    claim_roles := Some (roles user);
                    iat := None; exp := None |} in
  jwt_sign payload (secret cfg) (accessTokenExpiry cfg) now.

Definition generateRefreshToken (user : User) (now : Z) : Token :=
  let payload := {| sub := pid user; typ := "refresh";
                    claim_email := None; claim_roles := None;
                    iat := None; exp := None |} in
  jwt_sign payload (secret cfg) (refreshTokenExpiry cfg) now.

(** [tokenBlacklistRepository.findOne({ where: { token } })], as a boolean. *)
Definition isTokenBlacklisted {E} (t : Token) : M E bool :=
  run! emit (EvBlacklistFindOne t) in
  gets (fun w => existsb (fun row => bool_decide (token row = t))
                         (tokenBlacklist w)).

(** [userRepository.findOne({ where: { pid }, relations: [...] })]. *)
Definition findUserByPid {E} (p : string) : M E (option User) :=
  run! emit (EvUserFindOne p) in
  gets (fun w => List.find (fun u => String.eqb (pid u) p) (users w)).

Definition verifyJwt (t : Token) (now : Z) : M Cause Claims :=
  run! emit (EvJwtVerify t) in
  match jwt_verify t (secret cfg) now with
  | inl e => throw (JwtFailed e)
  | inr decoded => ret decoded
  end.

Definition areArraysEqual (arr1 arr2 : list string) : bool :=
  if negb (Nat.eqb (length arr1) (length arr2)) then false
  else forallb (fun item => Js.arrayIncludes item arr2) arr1.

Definition validateToken (tok : Token) (type : TokenType) (now : Z)
  : M Exception Claims :=
  rethrow InvalidToken
    (let! blacklisted := isTokenBlacklisted tok in
     if blacklisted : bool then throw TokenInvalidated else
     let! decoded := verifyJwt tok now in
     if negb (String.eqb (typ decoded) (typeTag type))
     then throw InvalidTokenType else
     match type with
     | access =>
         let! user := findUserByPid (sub decoded) in
         match user with
         | None => throw UserGoneOrInactive
         | Some u =>
             if negb (isActive u) then throw UserGoneOrInactive else
             match claim_roles decoded with
             | None => throw TypeError
             | Some decodedRoles =>
                 if negb (areArraysEqual (map role_name (roles u))
                                         (map role_name decodedRoles))
                 then throw RolesChanged
                 else ret decoded
             end
         end
     | refresh => ret decoded
     end).

(** Returns the new pair, or [None] for null. *)
Definition refreshAccessToken (refreshToken : Token) (now : Z)
  : M Exception (option (Token * Token)) :=
  recover None
    (let! decoded := validateToken refreshToken refresh now in
     let! user := findUserByPid (sub decoded) in
     match user with
     | None => ret None
     | Some u =>
         if negb (isActive u) then ret None else
         let newAccessToken := generateAccessToken u now in
         let newRefreshToken := generateRefreshToken u now in
         ret (Some (newAccessToken, newRefreshToken))
     end).

(** The database's reading of a text parameter that is bound to an integer
    column: the integer, or [None] when it rejects the text ("invalid input
    syntax for type integer"). *)
Variable integerInput : string -> option Z.

(** The time values that [new Date] turns into a valid date (at most
    8.64e15 ms from the epoch) and that the timestamp column holds (not
    before its first day, Julian day 0). *)
Definition timestampAccepted (ms : Z) : bool :=
  (-210866803200000 <=? ms) && (ms <=? 8640000000000000).

(** [tokenBlacklistRepository.save(entity)] of a new entity: the insert is
    rejected, with [QueryFailedError], when the owner is no integer, when
    the expiry is no timestamp, and when a row already carries the token
    (unique index on [token]). *)
Definition saveBlacklist (row : TokenBlacklist) : M Exception unit :=
  run! emit (EvBlacklistSave row) in
  let! stored := gets tokenBlacklist in
  match integerInput (userId row) with
  | None => throw QueryFailedError
  | Some _ =>
      if negb (timestampAccepted (expiresAt row))
         || existsb (fun r => bool_decide (token r = token row)) stored
      then throw QueryFailedError
      else modify (fun w => setTokenBlacklist (tokenBlacklist w ++ [row]) w)
  end.

(** [decoded.exp && decoded.sub] on a decoded payload: the expiry when both
    are truthy. *)
Definition expAndSub (decoded : option Claims) : option (Z * string) :=
  match decoded with
  | None => None
  | Some d =>
      match exp d with
      | None => None
      | Some e =>
          if (e =? 0) || negb (Js.truthy (sub d)) then None
          else Some (e, sub d)
      end
  end.

(** [userId || decoded.sub.toString()]. *)
Definition ownerOf (userId : option string) (subject : string) : string :=
  match userId with
  | Some u => if Js.truthy u then u else subject
  | None => subject
  end.

(** [if (refreshToken)] on an optional string argument. *)
Definition supplied (refreshToken : option Token) : option Token :=
  match refreshToken with
  | Some (Opaque EmptyString) => None
  | other => other
  end.

Definition logout (accessToken : Token) (refreshToken : option Token)
           (userId : option string) : M Exception unit :=
  let accessDecoded := jwt_decode accessToken in
  match expAndSub accessDecoded with
  | None => throw BadRequestException
  | Some (accessExp, accessSub) =>
      run! saveBlacklist {| token := accessToken;
                            expiresAt := accessExp * 1000;
                            userId := ownerOf userId accessSub;
                            reason := "logout" |} in
      match supplied refreshToken with
      | None => ret tt
      | Some rt =>
          let refreshDecoded := jwt_decode rt in
          match expAndSub refreshDecoded with
          | None => ret tt
          | Some (refreshExp, refreshSub) =>
              saveBlacklist {| token := rt;
                               expiresAt := refreshExp * 1000;
                               userId := ownerOf userId refreshSub;
                               reason := "logout" |}
          end
      end
  end.

(** The [getExists] query over the join of role_permissions with roles and
    permissions. *)
Definition rolePermissionExists {E} (userRoles : list RoleParam)
           (m a : string) : M E bool :=
  run! emit (EvRolePermissionExists m a) in
  gets (fun w =>
          existsb (fun rp =>
                     nameIn (role_name (rp_role rp)) userRoles
                     && String.eqb (method (rp_permission rp)) m
                     && String.eqb (action (rp_permission rp)) a)
                  (rolePermissions w)).

Definition isAuthorized {E} (userRoles : list RoleParam) (m a : string)
  : M E bool :=
  match userRoles with
  | [] => ret false
  | _ => rolePermissionExists userRoles m a
  end.

End AuthService.

(** ** The API version prefix *)

Fixpoint dropDigits (s : string) : string :=
  match s with
  | String c rest => if Js.isDigit c then dropDigits rest else s
  | EmptyString => s
  end.

(** [Some rest] when [s] is [p] followed by [rest]. *)
Fixpoint stripPrefix (p s : string) : option string :=
  match p, s with
  | EmptyString, _ => Some s
  | String a p', String b s' =>
      if Ascii.eqb a b then stripPrefix p' s' else None
  | String _ _, EmptyString => None
  end.

(** [route.match(/^\/api\/v\d+\//)]: what follows the matched prefix. *)
Definition matchApiVersion (r : string) : option string :=
  match stripPrefix "/api/v" r with
  | Some (String c _ as digits) =>
      if Js.isDigit c then
        match dropDigits digits with
        | String "/" rest => Some rest
        | _ => None
        end
      else None
  | _ => None
  end.

(** [route.replace(apiVersionMatch[0], '/')] when the prefix matches. *)
Definition stripApiVersion (r : string) : string :=
  match matchApiVersion r with
  | Some rest => "/" +:+ rest
  | None => r
  end.

(** ** PermissionService (src/services/role.service.ts) *)

Section PermissionService.

Context {E : Type}.

Definition cacheKey (m r : string) : string := m +:+ ":" +:+ r.

(** [permissionRepo.findOne({ where: { method, route } })]. *)
Definition findOneByRoute (m r : string) : M E (option Permission) :=
  run! emit (EvPermissionFindOne m r) in
  gets (fun w => List.find (fun p => String.eqb (method p) m
                                     && String.eqb (route p) r)
                           (permissions w)).

(** [permissionRepo.findOne({ where: { method, route, action } })]. *)
Definition findOneByTriple (m r a : string) : M E (option Permission) :=
  run! emit (EvPermissionFindOneTriple m r a) in
  gets (fun w => List.find (fun p => String.eqb (method p) m
                                     && String.eqb (route p) r
                                     && String.eqb (action p) a)
                           (permissions w)).

Definition savePermission (p : Permission) : M E unit :=
  run! emit (EvPermissionSave p) in
  modify (fun w => setPermissions (permissions w ++ [p]) w).

(** The loop of [matchesRoutePattern] over segment lists of equal length. *)
Fixpoint segmentsMatch (actualSegments patternSegments : list string) : bool :=
  match actualSegments, patternSegments with
  | actualSegment :: actualRest, patternSegment :: patternRest =>
      if Js.startsWith ":" patternSegment
      then segmentsMatch actualRest patternRest
      else if negb (String.eqb actualSegment patternSegment) then false
      else segmentsMatch actualRest patternRest
  | _, _ => true
  end.

Definition matchesRoutePattern (actualRoute patternRoute : string) : bool :=
  if String.eqb actualRoute patternRoute then true else
  let actualSegments := Js.filterBoolean (Js.split "/" actualRoute) in
  let patternSegments := Js.filterBoolean (Js.split "/" patternRoute) in
  if negb (Nat.eqb (length actualSegments) (length patternSegments))
  then false
  else segmentsMatch actualSegments patternSegments.

Definition findPermissionByPattern (m r : string) : M E (option Permission) :=
  run! emit (EvPermissionFind m) in
  gets (fun w =>
          List.find (fun p => matchesRoutePattern r (route p))
                    (List.filter (fun p => String.eqb (method p) m)
                                 (permissions w))).

(** [cachedAction || null]. *)
Definition orNull (s : string) : option string :=
  if Js.truthy s then Some s else None.

Definition getAction (m r : string) : M E (option string) :=
  let key := cacheKey m r in
  let! c := gets cache in
  match c !! key with
  | Some cachedAction => ret (orNull cachedAction)
  | None =>
      let! exact := findOneByRoute m r in
      let! permission :=
        match exact with
        | Some p => ret (Some p)
        | None => findPermissionByPattern m r
        end in
      match permission with
      | Some p =>
          run! modify (fun w => setCache (<[key := action p]> (cache w)) w) in
          ret (Some (action p))
      | None =>
          run! modify (fun w => setCache (<[key := ""]> (cache w)) w) in
          ret None
      end
  end.

(** [!action.includes(':') || action.split(':').length !== 2]. *)
Definition actionMalformed (a : string) : bool :=
  negb (Js.includes ":" a) || negb (Nat.eqb (length (Js.split ":" a)) 2).

Definition findOrCreatePermission (m r a : string) : M E Permission :=
  let! existing := findOneByTriple m r a in
  match existing with
  | Some p => ret p
  | None =>
      let permission := {| method := m; route := r; action := a |} in
      run! savePermission permission in
      ret permission
  end.

Definition normalizeRouteForStorage (r : string) : string :=
  match matchApiVersion r with
  | Some rest => "/" +:+ rest
  | None => r
  end.

End PermissionService.

Definition findOrCreatePermissionInternal (m r a : string)
  : M Exception Permission :=
  let normalizedRoute := normalizeRouteForStorage r in
  let! existing := findOneByTriple m normalizedRoute a in
  match existing with
  | Some p => ret p
  | None =>
      if actionMalformed a then throw ActionFormatError else
      let permission :=
        {| method := m; route := normalizedRoute; action := a |} in
      run! savePermission permission in
      ret permission
  end.

Definition createPermission (m r a : string) : M Exception Permission :=
  let! existingPermission := findOneByTriple m r a in
  match existingPermission with
  | Some _ => throw PermissionAlreadyExists
  | None =>
      if actionMalformed a then throw ActionFormatError else
      let permission := {| method := m; route := r; action := a |} in
      run! savePermission permission in
      let cacheKey := cacheKey m r in
      run! modify (fun w => setCache (delete cacheKey (cache w)) w) in
      ret permission
  end.

(** ** The middlewares (authenticate, authorize) *)

(** The value of the Authorization header: ["Bearer " + token], or any value
    that does not start with ["Bearer "]. *)
Inductive AuthHeader :=
| Bearer (t : Token)
| OtherScheme (raw : string).

Record Request := {
  req_method : string;
  originalUrl : string;
  host : option string;
  baseUrl : string;
  req_path : string;
  req_routePath : option string;     (* req.route?.path *)
  authorization : option AuthHeader;
  req_user : option Claims
}.

Definition setUser (decoded : Claims) (req : Request) : Request :=
  {| req_method := req_method req; originalUrl := originalUrl req;
     host := host req; baseUrl := baseUrl req; req_path := req_path req;
     req_routePath := req_routePath req;
     authorization := authorization req; req_user := Some decoded |}.

Fixpoint endsWithSlash (s : string) : bool :=
  match s with
  | EmptyString => false
  | String c EmptyString => Ascii.eqb c "/"
  | String _ rest => endsWithSlash rest
  end.

(** [s.slice(0, -1)]. *)
Fixpoint dropLast (s : string) : string :=
  match s with
  | EmptyString => EmptyString
  | String _ EmptyString => EmptyString
  | String c rest => String c (dropLast rest)
  end.

Definition inferActionFromConvention (m r : string) : string :=
  let segments := Js.filterBoolean (Js.split "/" r) in
  let resource :=
    match segments with
    | s :: _ => s
    | [] => "unknown"
    end in
  let second := match segments with _ :: s :: _ => Some s | _ => None end in
  let operation :=
    if String.eqb m "GET" then
      match second with
      | Some s =>
          if String.eqb s "profile" || String.eqb s "roles" then s
          else "detail"
      | None => if Js.includes ":" r then "detail" else "list"
      end
    else if String.eqb m "POST" then
      match second with
      | Some s => s
      | None => "create"
      end
    else if String.eqb m "PUT" || String.eqb m "PATCH" then "update"
    else if String.eqb m "DELETE" then "delete"
    else Js.toLowerCase m in
  resource +:+ ":" +:+ operation.

Section Middleware.

Variable cfg : JwtConfig.

(** [new URL(input, base).pathname] of the platform. *)
Variable urlPathname : string -> string -> string.

Definition authenticate (req : Request) (now : Z) : M Exception Request :=
  match authorization req with
  | Some (Bearer tok) =>
      let! decoded := validateToken cfg tok access now in
      ret (setUser decoded req)
  | _ => throw NoTokenProvided
  end.

Definition getFullRoutePath (req : Request) : string :=
  if Js.truthy (originalUrl req) then
    let base := "http://" +:+ match host req with
                              | Some h => if Js.truthy h then h else "localhost"
                              | None => "localhost"
                              end in
    urlPathname (originalUrl req) base
  else
    let basePath := baseUrl req in
    let currentPath := req_path req in
    let fullPath := basePath +:+ currentPath in
    let fullPath :=
      if negb (Js.startsWith "/" fullPath) then "/" +:+ fullPath
      else fullPath in
    if Nat.ltb 1 (String.length fullPath) && endsWithSlash fullPath
    then dropLast fullPath
    else fullPath.

Definition getPossibleRoutes (req : Request) (normalizedRoute : string)
  : list string :=
  let routes := [normalizedRoute] in
  let routes :=
    if Js.truthy (req_path req)
    then routes ++ [stripApiVersion (req_path req)] else routes in
  let routes :=
    match req_routePath req with
    | Some rp =>
        if Js.truthy rp && negb (String.eqb rp (req_path req))
        then routes ++ [stripApiVersion rp] else routes
    | None => routes
    end in
  let routes :=
    if Js.truthy normalizedRoute && Js.startsWith "/" normalizedRoute
    then routes ++ [Js.substring1 normalizedRoute] else routes in
  let routes :=
    if Js.truthy normalizedRoute && negb (Js.startsWith "/" normalizedRoute)
    then routes ++ ["/" +:+ normalizedRoute] else routes in
  Js.uniq (Js.filterBoolean routes).

(** The loop over the route variations: the first truthy catalog answer. *)
Fixpoint tryRoutes (m : string) (possibleRoutes : list string)
  : M Exception (option string) :=
  match possibleRoutes with
  | [] => ret None
  | r :: rest =>
      let! dbAction := getAction m r in
      match dbAction with
      | Some a => if Js.truthy a then ret (Some a) else tryRoutes m rest
      | None => tryRoutes m rest
      end
  end.

Definition inferAction (req : Request) : M Exception string :=
  let m := req_method req in
  let fullRoute := getFullRoutePath req in
  let normalizedRoute := stripApiVersion fullRoute in
  let possibleRoutes := getPossibleRoutes req normalizedRoute in
  let! dbAction := tryRoutes m possibleRoutes in
  match dbAction with
  | Some a => ret a
  | None => ret (inferActionFromConvention m normalizedRoute)
  end.

(** [req.user?.roles || []], as the array handed to [isAuthorized]: the
    elements are the role objects of the decoded payload. *)
Definition requestRoles (req : Request) : list RoleParam :=
  match req_user req with
  | Some decoded =>
      match claim_roles decoded with
      | Some rs => map ParamEntity rs
      | None => []
      end
  | None => []
  end.

(** [Ok tt] is [next()]; a thrown exception is [next(error)]. *)
Definition authorize (req : Request) : M Exception unit :=
  let userRoles := requestRoles req in
  let m := req_method req in
  let! a := inferAction req in
  let! allowed := isAuthorized userRoles m a in
  if allowed : bool then ret tt
  else throw ForbiddenException.


End Middleware.


(** ** The resolver with the failure of the URL constructor

    [new URL(input, base)] throws a TypeError when [input] does not parse
    against [base]; [getFullRoutePath] does not catch it, so it leaves
    [inferAction] and reaches the catch clause of [authorize], which hands
    it to [next]. *)

Module Fallible.

Section Middleware.

(** [new URL(input, base).pathname], [None] when the constructor throws. *)
Variable parseUrl : string -> string -> option string.

Definition getFullRoutePath (req : Request) : M Exception string :=
  if Js.truthy (originalUrl req) then
    let base := "http://" +:+ match host req with
                              | Some h => if Js.truthy h then h else "localhost"
                              | None => "localhost"
                              end in
    match parseUrl (originalUrl req) base with
    | Some pathname => ret pathname
    | None => throw InvalidUrlError
    end
  else
    let basePath := baseUrl req in
    let currentPath := req_path req in
    let fullPath := basePath +:+ currentPath in
    let fullPath :=
      if negb (Js.startsWith "/" fullPath) then "/" +:+ fullPath
      else fullPath in
    if Nat.ltb 1 (String.length fullPath) && endsWithSlash fullPath
    then ret (dropLast fullPath)
    else ret fullPath.

Definition inferAction (req : Request) : M Exception string :=
  let m := req_method req in
  let! fullRoute := getFullRoutePath req in
  let normalizedRoute := stripApiVersion fullRoute in
  let possibleRoutes := getPossibleRoutes req normalizedRoute in
  let! dbAction := tryRoutes m possibleRoutes in
  match dbAction with
  | Some a => ret a
  | None => ret (inferActionFromConvention m normalizedRoute)
  end.

(** [Ok tt] is [next()]; a thrown exception is [next(error)]. *)
Definition authorize (req : Request) : M Exception unit :=
  let userRoles := requestRoles req in
  let m := req_method req in
  let! a := inferAction req in
  let! allowed := isAuthorized userRoles m a in
  if allowed : bool then ret tt
  else throw ForbiddenException.

End Middleware.

End Fallible.

(** ** Service objects

    The container registers [PermissionService] without a lifecycle, which
    makes it transient: every resolution constructs an object with a cache
    of its own, empty at first. The middleware resolves its service once and
    keeps it; [getController] resolves the controller of a route, and with
    it the controller's service, for every request. [cache] of a [World] is
    the cache of the object the computation runs on; for the steps of a
    request chain that is the middleware's object. *)


(** ** Vocabulary of the statements *)

(** A token is revoked when a blacklist row carries it. *)
Definition revoked (w : World) (t : Token) : Prop :=
  exists row, In row (tokenBlacklist w) /\ token row = t.

(** The store after one more blacklist row. *)
Definition revoke (row : TokenBlacklist) (w : World) : World :=
  setTokenBlacklist (tokenBlacklist w ++ [row]) w.

(** The principal a subject refers to: the row [findUserByPid] returns. *)
Definition principal (w : World) (p : string) : option User :=
  List.find (fun u => String.eqb (pid u) p) (users w).


(** The answer of the blacklist lookup. *)
Definition blacklisted (w : World) (t : Token) : bool :=
  existsb (fun row => bool_decide (token row = t)) (tokenBlacklist w).

(** Step 4 of [validateToken] on the re-fetched principal. *)
Definition roleCheck (u : User) (decoded : Claims) : Res Cause Claims :=
  if negb (isActive u) then Throw UserGoneOrInactive else
  match claim_roles decoded with
  | None => Throw TypeError
  | Some rs =>
      if negb (areArraysEqual (map role_name (roles u)) (map role_name rs))
      then Throw RolesChanged else Ok decoded
  end.

Definition wrap {A} (r : Res Cause A) : Res Exception A :=
  match r with Ok a => Ok a | Throw c => Throw (InvalidToken c) end.

Definition isBlacklistSave (e : Event) : bool :=
  match e with EvBlacklistSave _ => true | _ => false end.

Definition isCatalogLookup (e : Event) : bool :=
  match e with
  | EvPermissionFindOne _ _ | EvPermissionFind _ => true
  | _ => false
  end.

(** A token that [jwt.decode] rejects, or whose payload has no truthy expiry
    or subject. *)
Definition undecodable (t : Token) : Prop :=
  match jwt_decode t with
  | None => True
  | Some d => exp d = None \/ exp d = Some 0 \/ sub d = ""
  end.

(** A token that decodes with expiry [e], in seconds, and subject [s],
    both truthy. *)
Definition decodesTo (t : Token) (e : Z) (s : string) : Prop :=
  exists d, jwt_decode t = Some d /\ exp d = Some e /\ e <> 0
            /\ sub d = s /\ s <> "".

(** No refresh token reaches the second save of [logout]: none is given, or
    the empty string, or one without a decodable expiry and subject. *)
Definition noRefreshRow (refreshToken : option Token) : Prop :=
  refreshToken = None \/ refreshToken = Some (Opaque "")
  \/ exists rt, refreshToken = Some rt /\ undecodable rt.

(** The segments a route is compared by: split on '/', empty pieces
    dropped. *)
Definition segments (r : string) : list string :=
  Js.filterBoolean (Js.split "/" r).

Definition segmentAgrees (actualSegment patternSegment : string) : Prop :=
  Js.startsWith ":" patternSegment = true \/ actualSegment = patternSegment.

(** What a lookup finds in the stored permissions: the first exact
    (method, route) row, else the first row of that method whose pattern
    matches. *)
Definition resolve (perms : list Permission) (m r : string)
  : option Permission :=
  match List.find (fun p => String.eqb (method p) m
                            && String.eqb (route p) r) perms with
  | Some p => Some p
  | None => List.find (fun p => String.eqb (method p) m
                                && matchesRoutePattern r (route p)) perms
  end.

(** The matching rule in the words of the specification: both strings split
    on '/', equal segment counts, each pattern segment a wildcard or equal
    to the path segment. *)
Definition specSegmentsMatch (path pattern : string) : bool :=
  let actual := Js.split "/" path in
  let pat := Js.split "/" pattern in
  Nat.eqb (length actual) (length pat)
  && forallb (fun ap => Js.startsWith ":" (snd ap)
                        || String.eqb (fst ap) (snd ap))
             (combine actual pat).

Definition specResolveAction (perms : list Permission) (m r : string)
  : option string :=
  match List.find (fun p => String.eqb (method p) m
                            && String.eqb (route p) r) perms with
  | Some p => Some (action p)
  | None =>
      option_map action
        (List.find (fun p => String.eqb (method p) m
                             && specSegmentsMatch r (route p)) perms)
  end.

(** The action shape of the data model: exactly one ':'. *)
Definition wellFormedAction (a : string) : Prop := Js.count ":" a = 1%nat.

Definition catalogWellFormed (w : World) : Prop :=
  Forall (fun p => wellFormedAction (action p)) (permissions w).

(** ** The example deployment of the specification *)

Module Scenario.

Definition cfg : JwtConfig :=
  {| secret := "s3cret"; accessTokenExpiry := 900;
     refreshTokenExpiry := 604800 |}.

Definition ADMIN : Role :=
  {| role_id := 1; role_name := "ADMIN"; role_description := "" |}.

Definition usersList : Permission :=
  {| method := "GET"; route := "/users"; action := "user:list" |}.

Definition userDetail : Permission :=
  {| method := "GET"; route := "/users/:id"; action := "user:detail" |}.

Definition alice : User :=
  {| user_id := 1; pid := "9b2f"; email := "alice@example.com";
     isActive := true;
     userRoles := [ {| ur_roleId := 1; ur_role := Some ADMIN |} ] |}.


Definition bob : User :=
  {| user_id := 2; pid := "77c0"; email := "bob@example.com";
     isActive := false; userRoles := [] |}.

Definition world0 : World :=
  {| users := [alice; bob]; permissions := [usersList];
     rolePermissions := [ {| rp_role := ADMIN; rp_permission := usersList |} ];
     tokenBlacklist := []; cache := ∅ |}.


Definition emptyCatalog : World := setPermissions [] world0.

Definition accessToken : Token := generateAccessToken cfg alice 1000.
Definition laterAccessToken : Token := generateAccessToken cfg alice 1001.
Definition refreshToken : Token := generateRefreshToken cfg alice 1000.
Definition bobRefreshToken : Token := generateRefreshToken cfg bob 1000.


Definition refreshClaims : Claims :=
  {| sub := "9b2f"; typ := "refresh"; claim_email := None;
     claim_roles := None; iat := Some 1000; exp := Some 605800 |}.

Definition accessRow : TokenBlacklist :=
  {| token := accessToken; expiresAt := 1900000; userId := "1";
     reason := "logout" |}.

(** Alice's access payload, long expired and signed with a foreign key. *)
Definition staleForgedToken : Token :=
  Jws {| sub := "9b2f"; typ := "access";
         claim_email := Some "alice@example.com";
         claim_roles := Some [ADMIN]; iat := Some 10; exp := Some 20 |}
      "another-key".

(** GET /api/v1/users, served by the router mounted at /api/v1/users. *)
Definition request : Request :=
  {| req_method := "GET"; originalUrl := "/api/v1/users"; host := None;
     baseUrl := "/api/v1/users"; req_path := "/"; req_routePath := Some "/";
     authorization := Some (Bearer accessToken); req_user := None |}.


End Scenario.

(** * Further services

    [Event] records the collaborator calls of the core; the services of this
    part read and write the same stores and emit no events. *)

(** ** AuthService: login *)

(** [UnauthorizedException('Invalid credentials')]. *)
Inductive CredentialError := InvalidCredentials.

Section Login.

Variable cfg : JwtConfig.

(** The entity method [user.validatePassword(password)], bcrypt's comparison
    of the password with the stored hash. *)
Variable validatePassword : User -> string -> bool.

(** [userRepository.findOne({ where: { email }, relations: [...] })]. *)
Definition findUserByEmail {E} (e : string) : M E (option User) :=
  gets (fun w => List.find (fun u => String.eqb (email u) e) (users w)).

Definition validateUser (e password : string) : M CredentialError User :=
  let! user := findUserByEmail e in
  match user with
  | None => throw InvalidCredentials
  | Some u =>
      if negb (isActive u) then throw InvalidCredentials else
      if negb (validatePassword u password) then throw InvalidCredentials
      else ret u
  end.

(** The response carries the user and the two tokens. *)
Definition login (e password : string) (now : Z)
  : M CredentialError (User * Token * Token) :=
  let! user := validateUser e password in
  let accessToken := generateAccessToken cfg user now in
  let refreshToken := generateRefreshToken cfg user now in
  ret (user, accessToken, refreshToken).

End Login.

(** ** UserService.deactivateUser (src/services/role.service.ts) *)

Definition setActive (b : bool) (u : User) : User :=
  {| user_id := user_id u; pid := pid u; email := email u; isActive := b;
     userRoles := userRoles u |}.

(** [userRepo.save(user)] of a loaded user: the row with its primary key is
    rewritten. *)
Definition saveUser {E} (u : User) : M E unit :=
  modify (fun w => setUsers (map (fun x => if user_id x =? user_id u then u
                                           else x) (users w)) w).

(** [user.roles?.some((role) => role.id === adminRole?.id)]. *)
Definition holdsRole (adminRole : option Role) (u : User) : bool :=
  match adminRole with
  | Some ar => existsb (fun role => role_id role =? role_id ar) (roles u)
  | None => false
  end.

(** [roleTable] is the content of the role repository. *)
Definition deactivateUser {E} (roleTable : list Role) (userId : string)
  : M E bool :=
  let! user := gets (fun w => List.find (fun u => String.eqb (pid u) userId)
                                        (users w)) in
  match user with
  | None => ret false
  | Some u =>
      if negb (isActive u) then ret false else
      let adminRole :=
        List.find (fun r => String.eqb (role_name r) "ADMIN") roleTable in
      let isAdmin := holdsRole adminRole u in
      if isAdmin then ret false else
      run! saveUser (setActive false u) in
      ret true
  end.

(** ** RoleService (src/services/role.service.ts) *)

Module RoleService.

(** [Error(`Role with name '...' already exists`)],
    [Error(`Role with ID '...' not found`)], and the error of a find whose
    options name a property that the entity does not have. *)
Inductive RoleError :=
| RoleAlreadyExists (name : string)
| RoleNotFound (id : Z)
| EntityPropertyNotFoundError (property : string).

(** The relations that the [Role] entity declares. *)
Definition roleRelations : list string := ["userRoles"; "rolePermissions"].

(** [roleRepo.findOne({ where, relations })]: the options are checked
    against the entity before any row is read. *)
Definition findOne (relations : list string) (condition : Role -> bool)
           (table : list Role) : Res RoleError (option Role) :=
  match List.find (fun r => negb (Js.arrayIncludes r roleRelations))
                  relations with
  | Some undeclared => Throw (EntityPropertyNotFoundError undeclared)
  | None => Ok (List.find condition table)
  end.

Definition findByName (name : string) (table : list Role) : option Role :=
  List.find (fun r => String.eqb (role_name r) name) table.

(** [findOne({ where: { id }, relations: ['users'] })]. *)
Definition findById (id : Z) (table : list Role)
  : Res RoleError (option Role) :=
  findOne ["users"] (fun r => role_id r =? id) table.

(** [newId] is the key the store generates for the inserted row;
    [description] is [None] when the argument is undefined, and the column
    is then null, the empty [role_description]. *)
Definition createRole (newId : Z) (name : string)
           (description : option string) (table : list Role)
  : Res RoleError Role * list Role :=
  match findByName name table with
  | Some _ => (Throw (RoleAlreadyExists name), table)
  | None =>
      let role := {| role_id := newId; role_name := name;
                     role_description := match description with
                                         | Some d => d
                                         | None => ""
                                         end |} in
      (Ok role, table ++ [role])
  end.

(** [description] is [None] when the argument is undefined. *)
Definition updateRole (id : Z) (name : string) (description : option string)
           (table : list Role) : Res RoleError Role * list Role :=
  match findById id table with
  | Throw e => (Throw e, table)
  | Ok None => (Throw (RoleNotFound id), table)
  | Ok (Some role) =>
      match List.find (fun r => String.eqb (role_name r) name
                                && negb (role_id r =? id)) table with
      | Some _ => (Throw (RoleAlreadyExists name), table)
      | None =>
          let updated :=
            {| role_id := role_id role; role_name := name;
               role_description := match description with
                                   | Some d => d
                                   | None => role_description role
                                   end |} in
          (Ok updated,
           map (fun r => if role_id r =? role_id updated then updated else r)
               table)
      end
  end.

End RoleService.

(** ** UserRoleService (src/services/userRole.service.ts)

    The rows of [user_roles] that belong to a user are the [userRoles] of
    that user, in the order of the table, each with its [role] relation. *)

Definition setUserRoles (l : list UserRole) (u : User) : User :=
  {| user_id := user_id u; pid := pid u; email := email u;
     isActive := isActive u; userRoles := l |}.

Module UserRoleService.

(** [Error(`User or role not found: ...`)]. *)
Inductive AssignError := UserOrRoleNotFound (userPid : string) (roleId : Z).

(** [userRoleRepo.findOne({ where: { userId: user.id, roleId } })]. *)
Definition findAssignment (u : User) (roleId : Z) : option UserRole :=
  List.find (fun ur => ur_roleId ur =? roleId) (userRoles u).

(** [userRoleRepo.remove(assignment)] for the row [findAssignment]
    returned. *)
Fixpoint removeAssignment (roleId : Z) (l : list UserRole) : list UserRole :=
  match l with
  | [] => []
  | ur :: rest => if ur_roleId ur =? roleId then rest
                  else ur :: removeAssignment roleId rest
  end.

Definition assignRole (roleTable : list Role) (userPid : string) (roleId : Z)
  : M AssignError UserRole :=
  let! user := gets (fun w => List.find (fun u => String.eqb (pid u) userPid)
                                        (users w)) in
  let role := List.find (fun r => role_id r =? roleId) roleTable in
  match user, role with
  | Some u, Some r =>
      match findAssignment u roleId with
      | Some existingAssignment => ret existingAssignment
      | None =>
          let userRole := {| ur_roleId := roleId; ur_role := Some r |} in
          run! saveUser (setUserRoles (userRoles u ++ [userRole]) u) in
          ret userRole
      end
  | _, _ => throw (UserOrRoleNotFound userPid roleId)
  end.

Definition removeRole {E} (userPid : string) (roleId : Z) : M E bool :=
  let! user := gets (fun w => List.find (fun u => String.eqb (pid u) userPid)
                                        (users w)) in
  match user with
  | None => ret false
  | Some u =>
      match findAssignment u roleId with
      | None => ret false
      | Some _ =>
          run! saveUser (setUserRoles (removeAssignment roleId (userRoles u))
                                      u) in
          ret true
      end
  end.

Definition userHasRole {E} (userPid : string) (roleId : Z) : M E bool :=
  let! user := gets (fun w => List.find (fun u => String.eqb (pid u) userPid)
                                        (users w)) in
  match user with
  | None => ret false
  | Some u => ret (match findAssignment u roleId with
                   | Some _ => true
                   | None => false
                   end)
  end.

End UserRoleService.

(** ** InvitationTokenService (src/services/invitationToken.service.ts) *)

(** [InvitationToken] rows; [inv_expiresAt] is in milliseconds. *)
Record InvitationToken := {
  inv_id : Z;
  inv_token : string;
  inv_createdBy : User;
  inv_expiresAt : Z;
  inv_used : bool;
  inv_usedBy : option User
}.

Module InvitationTokenService.

(** The thrown objects [{ status: 401, message: 'Unauthorized' }] and
    [{ status: 403, message: 'Forbidden' }]. *)
Inductive InvitationError := Unauthorized | Forbidden.

Definition invitationStatus (e : InvitationError) : Z :=
  match e with Unauthorized => 401 | Forbidden => 403 end.

(** [invitationTokenRepository.findOne({ where: { token, used: false } })]. *)
Definition findUnused (t : string) (table : list InvitationToken)
  : option InvitationToken :=
  List.find (fun i => String.eqb (inv_token i) t && negb (inv_used i)) table.

(** [uuid] is the value of [uuidv4()], [newId] the generated key, [now] the
    value of [Date.now()]; [users] is the user table. *)
Definition createTokenForUser (uuid : string) (newId now : Z)
           (users : list User) (userId : string) (roles : list RoleParam)
           (expiresInHours : Z) (table : list InvitationToken)
  : Res InvitationError InvitationToken * list InvitationToken :=
  if negb (Js.truthy userId) then (Throw Unauthorized, table) else
  if negb (nameIn "ADMIN" roles) then (Throw Forbidden, table) else
  match List.find (fun u => String.eqb (pid u) userId) users with
  | None => (Throw Unauthorized, table)
  | Some user =>
      let expiresAt := now + expiresInHours * 60 * 60 * 1000 in
      let invitationToken :=
        {| inv_id := newId; inv_token := uuid; inv_createdBy := user;
           inv_expiresAt := expiresAt; inv_used := false;
           inv_usedBy := None |} in
      (Ok invitationToken, table ++ [invitationToken])
  end.

Definition validateToken (now : Z) (t : string) (table : list InvitationToken)
  : option InvitationToken :=
  match findUnused t table with
  | None => None
  | Some invitation =>
      if inv_expiresAt invitation <? now then None else Some invitation
  end.

Definition markUsed (usedBy : User) (i : InvitationToken) : InvitationToken :=
  {| inv_id := inv_id i; inv_token := inv_token i;
     inv_createdBy := inv_createdBy i; inv_expiresAt := inv_expiresAt i;
     inv_used := true; inv_usedBy := Some usedBy |}.

Definition useToken (now : Z) (t : string) (usedBy : User)
           (table : list InvitationToken)
  : option InvitationToken * list InvitationToken :=
  match findUnused t table with
  | None => (None, table)
  | Some invitation =>
      if inv_expiresAt invitation <? now then (None, table) else
      let saved := markUsed usedBy invitation in
      (Some saved,
       map (fun i => if inv_id i =? inv_id saved then saved else i) table)
  end.

Definition listTokensForAdmin (roles : list RoleParam)
           (table : list InvitationToken)
  : Res InvitationError (list InvitationToken) :=
  if negb (nameIn "ADMIN" roles) then Throw Forbidden else Ok table.

(** [delete({ expiresAt: LessThan(now) })]. *)
Definition cleanupExpiredTokens (now : Z) (table : list InvitationToken)
  : list InvitationToken :=
  List.filter (fun i => negb (inv_expiresAt i <? now)) table.

End InvitationTokenService.

(** ** PermissionService.getPermissionUsageStats *)

(** [usageMap.set(action, (usageMap.get(action) || 0) + 1)] on a [Map],
    which keeps keys in the order of their first insertion. *)
Fixpoint bump (a : string) (usageMap : list (string * Z))
  : list (string * Z) :=
  match usageMap with
  | [] => [(a, 1)]
  | (k, n) :: rest => if String.eqb k a then (k, n + 1) :: rest
                      else (k, n) :: bump a rest
  end.

(** One step of the stable sort by [(a, b) => b.count - a.count]: [x]
    stood before every entry of [sorted]. *)
Fixpoint insertByCount (x : string * Z) (sorted : list (string * Z))
  : list (string * Z) :=
  match sorted with
  | [] => [x]
  | y :: rest => if snd y <=? snd x then x :: y :: rest
                 else y :: insertByCount x rest
  end.

(** [Array.prototype.sort] with that comparator: entries of equal count keep
    their order. *)
Definition sortByCount (l : list (string * Z)) : list (string * Z) :=
  fold_right insertByCount [] l.

Definition getPermissionUsageStats {E} : M E (list (string * Z)) :=
  let! rolePermissions := gets rolePermissions in
  let usageMap :=
    fold_left (fun usageMap rp => bump (action (rp_permission rp)) usageMap)
              rolePermissions [] in
  ret (sortByCount usageMap).

(** ** Vocabulary of the further statements *)

(** The [where: { method, route, action }] condition on a permission. *)
Definition sameTriple (m r a : string) (p : Permission) : bool :=
  String.eqb (method p) m && String.eqb (route p) r && String.eqb (action p) a.

(** A string of decimal digits, the [\d+] of the version prefix. *)
Fixpoint allDigits (s : string) : bool :=
  match s with
  | EmptyString => true
  | String c rest => Js.isDigit c && allDigits rest
  end.



(** [segments[0] || 'unknown'] of [inferActionFromConvention]. *)
Definition resourceOf (r : string) : string :=
  match segments r with
  | s :: _ => s
  | [] => "unknown"
  end.

(** The invitation table after [invitationTokenRepository.save(saved)]. *)
Definition usedRows (saved : InvitationToken) (table : list InvitationToken)
  : list InvitationToken :=
  map (fun i => if inv_id i =? inv_id saved then saved else i) table.

(** The number of grants whose permission carries the action. *)
Definition grantsOf (a : string) (w : World) : nat :=
  length (List.filter (fun rp => String.eqb (action (rp_permission rp)) a)
                      (rolePermissions w)).

(** The count a usage map holds for an action, 0 when it has no entry. *)
Definition usage (a : string) (usageMap : list (string * Z)) : Z :=
  match List.find (fun kv => String.eqb (fst kv) a) usageMap with
  | Some kv => snd kv
  | None => 0
  end.

Definition usageMapOk (usageMap : list (string * Z)) : Prop :=
  List.NoDup (map fst usageMap) /\ Forall (fun kv => 0 < snd kv) usageMap.

(** ** Further example data *)

Module Examples.

Definition USER : Role :=
  {| role_id := 2; role_name := "USER"; role_description := "" |}.

Definition roleTable : list Role := [Scenario.ADMIN; USER].

Definition carol : User :=
  {| user_id := 3; pid := "c4r0"; email := "carol@example.com";
     isActive := true;
     userRoles := [ {| ur_roleId := 2; ur_role := Some USER |} ] |}.

Definition world1 : World :=
  setUsers [Scenario.alice; Scenario.bob; carol] Scenario.world0.

Definition carolToken : Token := generateAccessToken Scenario.cfg carol 1000.

(** A password check that accepts one password for every account. *)
Definition validatePassword (u : User) (password : string) : bool :=
  String.eqb password "correct horse".

Definition invitation : InvitationToken :=
  {| inv_id := 1; inv_token := "inv-1"; inv_createdBy := Scenario.alice;
     inv_expiresAt := 90000000; inv_used := false; inv_usedBy := None |}.

Definition expiredInvitation : InvitationToken :=
  {| inv_id := 2; inv_token := "inv-2"; inv_createdBy := Scenario.alice;
     inv_expiresAt := 1000; inv_used := false; inv_usedBy := None |}.

Definition invitations : list InvitationToken :=
  [invitation; expiredInvitation].

(** A user with a pid as the application generates them. *)
Definition dave : User :=
  {| user_id := 4; pid := "123e4567-e89b-12d3-a456-426614174000";
     email := "dave@example.com"; isActive := true; userRoles := [] |}.

Definition daveAccessToken : Token :=
  generateAccessToken Scenario.cfg dave 1000.

Definition daveRefreshToken : Token :=
  generateRefreshToken Scenario.cfg dave 1000.

(** Decodable tokens whose subject reads as an integer. The application
    issues none, its subjects are pids; [logout] does not verify what it
    decodes. *)
Definition numericAccessToken : Token :=
  Jws {| sub := "42"; typ := "access"; claim_email := None;
         claim_roles := Some []; iat := Some 1000; exp := Some 1900 |}
      "another-key".


(** A URL parser that refuses a base whose host holds a space, as the
    platform's does, and answers the request target otherwise. *)
Definition parseUrl (input base : string) : option string :=
  if Js.includes " " base then None else Some input.

(** GET /api/v1/roles without a user, with the header [Host: bad host]. *)
Definition badHostRequest : Request :=
  {| req_method := "GET"; originalUrl := "/api/v1/roles";
     host := Some "bad host"; baseUrl := "/api/v1/roles"; req_path := "/";
     req_routePath := Some "/"; authorization := None; req_user := None |}.

(** The same request with the access token of dave, who holds no role. *)
Definition daveBadHostRequest : Request :=
  {| req_method := "GET"; originalUrl := "/api/v1/roles";
     host := Some "bad host"; baseUrl := "/api/v1/roles"; req_path := "/";
     req_routePath := Some "/";
     authorization := Some (Bearer daveAccessToken); req_user := None |}.

(** An administrator with such a pid. *)
Definition erin : User :=
  {| user_id := 5; pid := "123e4567-e89b-12d3-a456-426614174001";
     email := "erin@example.com"; isActive := true;
     userRoles := [ {| ur_roleId := 1; ur_role := Some Scenario.ADMIN |} ] |}.

Definition worldWithDave : World :=
  setUsers [Scenario.alice; Scenario.bob; dave; erin] Scenario.world0.


End Examples.

(** * Properties *)

Ltac unfold_monad :=
  unfold bind, ret, throw, emit, gets, modify, rethrow, recover,
    result, world, events.

(** ** Strings *)

Lemma split_length c s : length (Js.split c s) = S (Js.count c s).
Proof.
  induction s as [|d s IH]; simpl; [reflexivity|].
  destruct (Ascii.eqb d c); simpl.
  - by rewrite IH.
  - destruct (Js.split c s); simpl in *; lia.
Qed.

Lemma includes_count c s : Js.includes c s = negb (Nat.eqb (Js.count c s) 0).
Proof.
  induction s as [|d s IH]; simpl; [reflexivity|].
  destruct (Ascii.eqb d c); simpl; [reflexivity|exact IH].
Qed.

Lemma arrayIncludes_In x l : Js.arrayIncludes x l = true <-> In x l.
Proof.
  unfold Js.arrayIncludes. rewrite existsb_exists. split.
  - intros [y [Hin Heq]]. apply String.eqb_eq in Heq. by subst.
  - intros Hin. exists x. split; [done|apply String.eqb_refl].
Qed.

(** ** Token service *)

Lemma blacklisted_true w t : blacklisted w t = true <-> revoked w t.
Proof.
  unfold blacklisted, revoked. rewrite existsb_exists.
  split; intros [row [Hin Ht]]; exists row; split; auto.
  - by apply bool_decide_eq_true in Ht.
  - by apply bool_decide_eq_true.
Qed.

Lemma blacklisted_false w t : blacklisted w t = false <-> ~ revoked w t.
Proof.
  rewrite <- blacklisted_true. destruct (blacklisted w t); split; congruence.
Qed.

Lemma blacklisted_revoke row w t :
  blacklisted (revoke row w) t
  = blacklisted w t || bool_decide (token row = t).
Proof.
  unfold blacklisted, revoke; simpl. rewrite existsb_app; simpl.
  by rewrite orb_false_r.
Qed.

(** The four steps of [validateToken], in order, with the calls each
    outcome has made. *)
Lemma validateToken_unfold cfg tok ty now w :
  validateToken cfg tok ty now w =
  if blacklisted w tok
  then (Throw (InvalidToken TokenInvalidated), w, [EvBlacklistFindOne tok])
  else match jwt_verify tok (secret cfg) now with
       | inl e => (Throw (InvalidToken (JwtFailed e)), w,
                   [EvBlacklistFindOne tok; EvJwtVerify tok])
       | inr decoded =>
           if negb (String.eqb (typ decoded) (typeTag ty))
           then (Throw (InvalidToken InvalidTokenType), w,
                 [EvBlacklistFindOne tok; EvJwtVerify tok])
           else match ty with
                | refresh => (Ok decoded, w,
                              [EvBlacklistFindOne tok; EvJwtVerify tok])
                | access =>
                    (wrap (match principal w (sub decoded) with
                           | None => Throw UserGoneOrInactive
                           | Some u => roleCheck u decoded
                           end), w,
                     [EvBlacklistFindOne tok; EvJwtVerify tok;
                      EvUserFindOne (sub decoded)])
                end
       end.
Proof.
  unfold validateToken, isTokenBlacklisted, verifyJwt, findUserByPid,
    blacklisted, principal, roleCheck.
  unfold_monad. simpl.
  destruct (existsb _ _); [reflexivity|].
  destruct (jwt_verify tok (secret cfg) now) as [e|decoded]; [reflexivity|].
  simpl. destruct (negb (String.eqb _ _)); [reflexivity|].
  destruct ty; [|reflexivity]. simpl.
  destruct (List.find _ _) as [u|]; [|reflexivity].
  destruct (negb (isActive u)); [reflexivity|].
  destruct (claim_roles decoded) as [rs|]; [|reflexivity].
  destruct (negb (areArraysEqual _ _)); reflexivity.
Qed.

Lemma validateToken_world cfg tok ty now w :
  world (validateToken cfg tok ty now w) = w.
Proof.
  rewrite validateToken_unfold.
  destruct (blacklisted w tok); [reflexivity|].
  destruct (jwt_verify _ _ _); [reflexivity|].
  destruct (negb _); [reflexivity|]. destruct ty; reflexivity.
Qed.

Lemma verify_decode tok k now c :
  jwt_verify tok k now = inr c -> jwt_decode tok = Some c.
Proof.
  destruct tok as [p k'|raw]; simpl; [|discriminate].
  destruct (negb _); [discriminate|].
  destruct (exp p) as [e|]; [destruct (e <=? now); [discriminate|]|];
    by intros [= ->].
Qed.

(** C5: the blacklist lookup is the first call of every verification, ahead
    of the signature check. A token of the revoked set is rejected with
    Unauthorized after that lookup alone, whatever its signature and expiry;
    and inserting a row for one token leaves the verification of every other
    token, of the same subject or not, as it was. *)
Theorem revoked_token_rejected cfg w ty now row t' :
  t' <> token row ->
  (forall w1 tok,
     exists rest,
       events (validateToken cfg tok ty now w1) = EvBlacklistFindOne tok :: rest
       /\ (revoked w1 tok ->
           rest = []
           /\ result (validateToken cfg tok ty now w1)
              = Throw (InvalidToken TokenInvalidated)))
  /\ isUnauthorized (InvalidToken TokenInvalidated) = true
  /\ revoked (revoke row w) (token row)
  /\ result (validateToken cfg t' ty now (revoke row w))
     = result (validateToken cfg t' ty now w).
Proof.
  intros Hne. split; [|split; [reflexivity|split]].
  - intros w1 tok. rewrite validateToken_unfold.
    destruct (blacklisted w1 tok) eqn:Hbl.
    + by eexists.
    + apply blacklisted_false in Hbl.
      destruct (jwt_verify tok (secret cfg) now) as [e|d];
        [eexists; split; [reflexivity|done]|].
      destruct (negb _); [eexists; split; [reflexivity|done]|].
      destruct ty; eexists; (split; [reflexivity|done]).
  - exists row. split; [|reflexivity].
    unfold revoke. simpl. apply in_or_app. right. by left.
  - rewrite !validateToken_unfold, blacklisted_revoke.
    rewrite (bool_decide_eq_false_2 (token row = t')) by congruence.
    rewrite orb_false_r.
    destruct (blacklisted w t'); [reflexivity|].
    destruct (jwt_verify t' (secret cfg) now) as [e|d]; [reflexivity|].
    destruct (negb _); [reflexivity|].
    destruct ty; reflexivity.
Qed.

Lemma revoked_token_rejected_witness :
  result (validateToken Scenario.cfg Scenario.accessToken access 1060
            (revoke Scenario.accessRow Scenario.world0))
  = Throw (InvalidToken TokenInvalidated)
  /\ result (validateToken Scenario.cfg Scenario.laterAccessToken access 1060
               (revoke Scenario.accessRow Scenario.world0))
     = result (validateToken Scenario.cfg Scenario.laterAccessToken access
                 1060 Scenario.world0)
  /\ exists c, result (validateToken Scenario.cfg Scenario.laterAccessToken
                         access 1060 Scenario.world0) = Ok c
               /\ sub c = pid Scenario.alice.
Proof.
  destruct (revoked_token_rejected Scenario.cfg Scenario.world0 access 1060
              Scenario.accessRow Scenario.laterAccessToken)
    as (Hrej & _ & Hin & Hother).
  - intros H. vm_compute in H. discriminate H.
  - split; [|split; [exact Hother|]].
    + destruct (Hrej (revoke Scenario.accessRow Scenario.world0)
                  Scenario.accessToken) as (rest & _ & Hrev).
      apply (Hrev Hin).
    + eexists. split; [vm_compute; reflexivity|reflexivity].
Defined.

Lemma areArraysEqual_spec arr1 arr2 :
  areArraysEqual arr1 arr2 = true <->
  length arr1 = length arr2 /\ incl arr1 arr2.
Proof.
  unfold areArraysEqual.
  destruct (Nat.eqb (length arr1) (length arr2)) eqn:Hlen; simpl.
  - apply Nat.eqb_eq in Hlen. rewrite forallb_forall. split.
    + intros H. split; [done|]. intros x Hx. by apply arrayIncludes_In, H.
    + intros [_ H] x Hx. by apply arrayIncludes_In, H.
  - apply Nat.eqb_neq in Hlen. split; [discriminate|]. intros [H _]. done.
Qed.

Lemma areArraysEqual_refl l : areArraysEqual l l = true.
Proof. apply areArraysEqual_spec. split; [done|]. by intros x. Qed.




Lemma verify_fresh_access cfg u now :
  0 < accessTokenExpiry cfg ->
  exists c, jwt_verify (generateAccessToken cfg u now) (secret cfg) now = inr c
            /\ sub c = pid u /\ typ c = "access"
            /\ claim_roles c = Some (roles u).
Proof.
  intros Hpos. unfold generateAccessToken, jwt_sign, jwt_verify. simpl.
  rewrite String.eqb_refl. simpl.
  destruct (Z.leb_spec (now + accessTokenExpiry cfg) now); [lia|].
  eexists; repeat split.
Qed.

Lemma verify_fresh_refresh cfg u now :
  0 < refreshTokenExpiry cfg ->
  exists c, jwt_verify (generateRefreshToken cfg u now) (secret cfg) now = inr c
            /\ sub c = pid u /\ typ c = "refresh".
Proof.
  intros Hpos. unfold generateRefreshToken, jwt_sign, jwt_verify. simpl.
  rewrite String.eqb_refl. simpl.
  destruct (Z.leb_spec (now + refreshTokenExpiry cfg) now); [lia|].
  eexists; repeat split.
Qed.

(** C6, as stated, fails for an inactive principal: the access token issued
    for bob is rejected at once, because verification requires the
    re-fetched principal to be active. *)
Lemma inactive_principal_roundtrip_fails :
  principal Scenario.world0 (pid Scenario.bob) = Some Scenario.bob
  /\ isActive Scenario.bob = false
  /\ ~ revoked Scenario.world0
       (generateAccessToken Scenario.cfg Scenario.bob 1000)
  /\ result (validateToken Scenario.cfg
               (generateAccessToken Scenario.cfg Scenario.bob 1000)
               access 1000 Scenario.world0)
     = Throw (InvalidToken UserGoneOrInactive).
Proof.
  split; [reflexivity|]. split; [reflexivity|].
  split; [intros (row & [] & _)|]. vm_compute. reflexivity.
Qed.

(** C6 (amended): with positive configured lifetimes, a token verified at
    the moment it was issued, and not already in the revoked set, yields
    claims with the principal's external id as subject and the issued type:
    a refresh token for every principal, an access token for every stored
    principal that is active. Any token whose type field is refresh fails
    verification as an access token with Unauthorized. *)
Theorem issue_verify_roundtrip cfg w u now :
  0 < accessTokenExpiry cfg ->
  0 < refreshTokenExpiry cfg ->
  (principal w (pid u) = Some u -> isActive u = true ->
   ~ revoked w (generateAccessToken cfg u now) ->
   exists c, result (validateToken cfg (generateAccessToken cfg u now)
                                   access now w) = Ok c
             /\ sub c = pid u /\ typ c = typeTag access)
  /\ (~ revoked w (generateRefreshToken cfg u now) ->
      exists c, result (validateToken cfg (generateRefreshToken cfg u now)
                                      refresh now w) = Ok c
                /\ sub c = pid u /\ typ c = typeTag refresh)
  /\ (forall w' tok now' decoded,
        jwt_decode tok = Some decoded -> typ decoded = typeTag refresh ->
        exists c, result (validateToken cfg tok access now' w')
                  = Throw (InvalidToken c)
                  /\ isUnauthorized (InvalidToken c) = true).
Proof.
  intros Ha Hr. repeat split.
  - intros Hu Hact Hrev. apply blacklisted_false in Hrev.
    destruct (verify_fresh_access cfg u now Ha) as (c & Hv & Hs & Ht & Hroles).
    exists c. rewrite validateToken_unfold, Hrev, Hv, Ht, Hs, Hu. simpl.
    unfold roleCheck. rewrite Hact, Hroles, areArraysEqual_refl. simpl.
    repeat split; done.
  - intros Hrev. apply blacklisted_false in Hrev.
    destruct (verify_fresh_refresh cfg u now Hr) as (c & Hv & Hs & Ht).
    exists c. rewrite validateToken_unfold, Hrev, Hv, Ht. simpl.
    repeat split; done.
  - intros w' tok now' decoded Hdec Htyp.
    rewrite validateToken_unfold.
    destruct (blacklisted w' tok); [eexists; split; reflexivity|].
    destruct (jwt_verify tok (secret cfg) now') as [e|d] eqn:Hv;
      [eexists; split; reflexivity|].
    apply verify_decode in Hv. rewrite Hdec in Hv. injection Hv as <-.
    rewrite Htyp. simpl. eexists; split; reflexivity.
Qed.

Lemma issue_verify_roundtrip_witness :
  (exists c, result (validateToken Scenario.cfg Scenario.accessToken
                       access 1000 Scenario.world0) = Ok c
             /\ sub c = "9b2f" /\ typ c = "access")
  /\ (exists c, result (validateToken Scenario.cfg Scenario.bobRefreshToken
                          refresh 1000 Scenario.world0) = Ok c
                /\ sub c = "77c0" /\ typ c = "refresh")
  /\ exists c, result (validateToken Scenario.cfg Scenario.refreshToken
                         access 1000 Scenario.world0)
               = Throw (InvalidToken c).
Proof.
  destruct (issue_verify_roundtrip Scenario.cfg Scenario.world0
              Scenario.alice 1000 eq_refl eq_refl) as (Hacc & _ & Hwrong).
  destruct (issue_verify_roundtrip Scenario.cfg Scenario.world0
              Scenario.bob 1000 eq_refl eq_refl) as (_ & Href & _).
  split; [|split].
  - apply Hacc; [reflexivity|reflexivity|intros (row & [] & _)].
  - apply Href. intros (row & [] & _).
  - destruct (Hwrong Scenario.world0 Scenario.refreshToken 1000
                Scenario.refreshClaims eq_refl eq_refl) as (c & Hc & _).
    by exists c.
Defined.

Lemma refreshAccessToken_unfold cfg tok now w :
  refreshAccessToken cfg tok now w =
  match validateToken cfg tok refresh now w with
  | (Ok decoded, w1, ev) =>
      (Ok (match principal w1 (sub decoded) with
           | Some u => if negb (isActive u) then None
                       else Some (generateAccessToken cfg u now,
                                  generateRefreshToken cfg u now)
           | None => None
           end), w1, ev ++ [EvUserFindOne (sub decoded)])
  | (Throw _, w1, ev) => (Ok None, w1, ev)
  end.
Proof.
  unfold refreshAccessToken, recover, bind.
  destruct (validateToken cfg tok refresh now w) as [[[decoded|e] w1] ev];
    [|reflexivity].
  unfold findUserByPid, principal. unfold_monad. simpl.
  destruct (List.find _ _) as [u|]; simpl; [|reflexivity].
  destruct (negb (isActive u)); reflexivity.
Qed.

(** C9, as stated, fails for a principal that is no longer active: bob's
    refresh token verifies, yet refreshing with it returns null and issues
    no pair. *)
Lemma refresh_for_inactive_principal_issues_nothing :
  result (validateToken Scenario.cfg Scenario.bobRefreshToken refresh 1060
            Scenario.world0)
  = Ok {| sub := "77c0"; typ := "refresh"; claim_email := None;
          claim_roles := None; iat := Some 1000; exp := Some 605800 |}
  /\ result (refreshAccessToken Scenario.cfg Scenario.bobRefreshToken 1060
               Scenario.world0) = Ok None.
Proof. split; vm_compute; reflexivity. Qed.

(** C9 (amended): refreshing with a refresh token that verifies returns a
    newly signed access+refresh pair when the token's principal exists and
    is active, and null otherwise. In every case the store is left as it
    was: no blacklist row is written, the old refresh token is not revoked,
    and it keeps verifying at any later time before its expiry. *)
Theorem refresh_leaves_blacklist cfg w tok now decoded :
  result (validateToken cfg tok refresh now w) = Ok decoded ->
  world (refreshAccessToken cfg tok now w) = w
  /\ forallb (fun e => negb (isBlacklistSave e))
             (events (refreshAccessToken cfg tok now w)) = true
  /\ ~ revoked (world (refreshAccessToken cfg tok now w)) tok
  /\ result (refreshAccessToken cfg tok now w) =
     Ok (match principal w (sub decoded) with
         | Some u => if isActive u
                     then Some (generateAccessToken cfg u now,
                                generateRefreshToken cfg u now)
                     else None
         | None => None
         end)
  /\ (forall later,
        (forall e, exp decoded = Some e -> later < e) ->
        result (validateToken cfg tok refresh later
                  (world (refreshAccessToken cfg tok now w)))
        = Ok decoded).
Proof.
  intros Hok. rewrite refreshAccessToken_unfold.
  revert Hok. rewrite validateToken_unfold.
  destruct (blacklisted w tok) eqn:Hbl; [discriminate|].
  destruct (jwt_verify tok (secret cfg) now) as [e|d] eqn:Hv; [discriminate|].
  destruct (negb (String.eqb (typ d) (typeTag refresh))) eqn:Ht;
    [discriminate|].
  unfold result, world; simpl. intros [= ->].
  repeat split.
  - by apply blacklisted_false.
  - destruct (principal w (sub decoded)) as [u|]; [|reflexivity].
    by destruct (isActive u).
  - intros later Hlater. rewrite validateToken_unfold, Hbl.
    destruct tok as [p k|raw]; simpl in *; [|discriminate].
    destruct (negb (String.eqb k (secret cfg))); [discriminate|].
    assert (p = decoded) as ->.
    { destruct (exp p) as [e|]; [destruct (e <=? now); [discriminate|]|];
        by injection Hv. }
    destruct (exp decoded) as [e|] eqn:He.
    + specialize (Hlater e eq_refl).
      destruct (Z.leb_spec e later); [lia|]. by rewrite Ht.
    + by rewrite Ht.
Qed.

Lemma refresh_leaves_blacklist_witness :
  tokenBlacklist (world (refreshAccessToken Scenario.cfg Scenario.refreshToken
                           1060 Scenario.world0)) = []
  /\ result (refreshAccessToken Scenario.cfg Scenario.refreshToken 1060
               Scenario.world0)
     = Ok (Some (generateAccessToken Scenario.cfg Scenario.alice 1060,
                 generateRefreshToken Scenario.cfg Scenario.alice 1060))
  /\ result (validateToken Scenario.cfg Scenario.refreshToken refresh 605799
               (world (refreshAccessToken Scenario.cfg Scenario.refreshToken
                         1060 Scenario.world0)))
     = Ok Scenario.refreshClaims.
Proof.
  destruct (refresh_leaves_blacklist Scenario.cfg Scenario.world0
              Scenario.refreshToken 1060 Scenario.refreshClaims)
    as (Hw & _ & _ & Hres & Hlater).
  - vm_compute. reflexivity.
  - split; [by rewrite Hw|]. split; [exact Hres|].
    apply Hlater. intros e [= <-]. reflexivity.
Defined.

Lemma saveBlacklist_unfold integerInput row w :
  saveBlacklist integerInput row w =
  if match integerInput (userId row) with
     | None => true
     | Some _ => negb (timestampAccepted (expiresAt row))
                 || blacklisted w (token row)
     end
  then (Throw QueryFailedError, w, [EvBlacklistSave row])
  else (Ok tt, revoke row w, [EvBlacklistSave row]).
Proof.
  unfold saveBlacklist, blacklisted, revoke. unfold_monad. simpl.
  destruct (integerInput (userId row)); [|reflexivity].
  destruct (negb _ || _); reflexivity.
Qed.

Lemma saveBlacklist_accepted integerInput row w n :
  integerInput (userId row) = Some n ->
  -210866803200000 <= expiresAt row <= 8640000000000000 ->
  ~ revoked w (token row) ->
  saveBlacklist integerInput row w
  = (Ok tt, revoke row w, [EvBlacklistSave row]).
Proof.
  intros Hn Hrange Hrev. rewrite saveBlacklist_unfold, Hn.
  apply blacklisted_false in Hrev. rewrite Hrev.
  unfold timestampAccepted.
  destruct (Z.leb_spec (-210866803200000) (expiresAt row)); [|lia].
  destruct (Z.leb_spec (expiresAt row) 8640000000000000); [|lia].
  reflexivity.
Qed.

Lemma saveBlacklist_refused integerInput row w :
  integerInput (userId row) = None ->
  saveBlacklist integerInput row w
  = (Throw QueryFailedError, w, [EvBlacklistSave row]).
Proof. intros Hn. by rewrite saveBlacklist_unfold, Hn. Qed.

Lemma expAndSub_decodes t e s :
  decodesTo t e s -> expAndSub (jwt_decode t) = Some (e, s).
Proof.
  intros (d & -> & He & Hne & Hs & Hs'). unfold expAndSub. rewrite He, Hs.
  destruct (Z.eqb_spec e 0); [done|]. by destruct s.
Qed.

Lemma expAndSub_undecodable t :
  expAndSub (jwt_decode t) = None <-> undecodable t.
Proof.
  unfold undecodable, expAndSub.
  destruct (jwt_decode t) as [d|]; [|done].
  destruct (exp d) as [e|]; [|by split; [left|]].
  destruct (Z.eqb_spec e 0) as [->|He]; simpl.
  - split; [by right; left|done].
  - destruct (sub d); simpl.
    + split; [by right; right|done].
    + split; [done|]. intros [H|[H|H]]; [done|congruence|done].
Qed.

Lemma supplied_none refreshToken :
  noRefreshRow refreshToken ->
  match supplied refreshToken with
  | Some rt => expAndSub (jwt_decode rt) = None
  | None => True
  end.
Proof.
  intros [->|[->|(rt & -> & Hrt)]]; [done|done|].
  apply expAndSub_undecodable in Hrt.
  by destruct rt as [? ?|[|? ?]].
Qed.

(** C8: logout decodes the access token without verifying it and answers
    BadRequest, before any call, exactly when that token does not decode
    with an expiry and a subject. Otherwise it saves a row for the token
    with the decoded expiry in milliseconds and, as owner, the userId
    argument when that is given and not empty, else the decoded subject.
    The owner goes to an integer column: when the database does not read
    it as an integer, as for the pid that is the subject of every token
    the application issues, the save is rejected, logout fails with
    QueryFailedError and nothing is written. When the owner is an
    integer, the token is not yet blacklisted and its expiry is a date,
    the row is written; a refresh token that is absent, empty or not
    decodable is then skipped without error, and one that decodes gets a
    second row under the same conditions, whose rejection fails the
    logout after the first row has been written. *)
Theorem logout_outcome integerInput w accessToken refreshToken userId :
  (result (logout integerInput accessToken refreshToken userId w)
   = Throw BadRequestException <-> undecodable accessToken)
  /\ (undecodable accessToken ->
      logout integerInput accessToken refreshToken userId w
      = (Throw BadRequestException, w, []))
  /\ (forall e s owner,
        decodesTo accessToken e s ->
        owner = match userId with
                | Some u => if String.eqb u "" then s else u
                | None => s
                end ->
        (integerInput owner = None ->
         logout integerInput accessToken refreshToken userId w
         = (Throw QueryFailedError, w,
            [EvBlacklistSave {| token := accessToken;
                                expiresAt := e * 1000;
                                userId := owner; reason := "logout" |}]))
        /\ (forall n,
              integerInput owner = Some n ->
              0 < e -> e * 1000 <= 8640000000000000 ->
              ~ revoked w accessToken ->
              (noRefreshRow refreshToken ->
               logout integerInput accessToken refreshToken userId w
               = (Ok tt,
                  revoke {| token := accessToken; expiresAt := e * 1000;
                            userId := owner; reason := "logout" |} w,
                  [EvBlacklistSave {| token := accessToken;
                                      expiresAt := e * 1000;
                                      userId := owner;
                                      reason := "logout" |}]))
              /\ (forall rt e' s' owner',
                    refreshToken = Some rt ->
                    decodesTo rt e' s' ->
                    owner' = match userId with
                             | Some u => if String.eqb u "" then s' else u
                             | None => s'
                             end ->
                    (integerInput owner' = None ->
                     result (logout integerInput accessToken refreshToken
                                    userId w) = Throw QueryFailedError
                     /\ world (logout integerInput accessToken refreshToken
                                      userId w)
                        = revoke {| token := accessToken;
                                    expiresAt := e * 1000;
                                    userId := owner; reason := "logout" |} w)
                    /\ (forall n',
                          integerInput owner' = Some n' ->
                          0 < e' -> e' * 1000 <= 8640000000000000 ->
                          ~ revoked w rt -> rt <> accessToken ->
                          result (logout integerInput accessToken
                                         refreshToken userId w) = Ok tt
                          /\ tokenBlacklist
                               (world (logout integerInput accessToken
                                              refreshToken userId w))
                             = tokenBlacklist w
                               ++ [ {| token := accessToken;
                                       expiresAt := e * 1000;
                                       userId := owner;
                                       reason := "logout" |};
                                    {| token := rt;
                                       expiresAt := e' * 1000;
                                       userId := owner';
                                       reason := "logout" |} ])))).
Proof.
  assert (Howner : forall s,
             ownerOf userId s = match userId with
                                | Some u => if String.eqb u "" then s else u
                                | None => s
                                end).
  { intros s. unfold ownerOf. destruct userId as [[|c u]|]; reflexivity. }
  split; [|split].
  - rewrite <- expAndSub_undecodable. unfold logout.
    destruct (expAndSub (jwt_decode accessToken)) as [[e s]|]; [|done].
    split; [|discriminate]. unfold bind. rewrite saveBlacklist_unfold.
    destruct (match integerInput _ with None => true | Some _ => _ end);
      [discriminate|].
    destruct (supplied refreshToken) as [rt|]; [|discriminate].
    destruct (expAndSub (jwt_decode rt)) as [[e' s']|]; [|discriminate].
    rewrite saveBlacklist_unfold.
    destruct (match integerInput _ with None => true | Some _ => _ end);
      discriminate.
  - intros Hund. apply expAndSub_undecodable in Hund. unfold logout.
    by rewrite Hund.
  - intros e s owner Hdec ->. rewrite <- Howner.
    apply expAndSub_decodes in Hdec. unfold logout. rewrite Hdec.
    set (accessRow := {| token := accessToken; expiresAt := e * 1000;
                         userId := ownerOf userId s; reason := "logout" |}).
    split.
    + intros Hnone. unfold bind.
      by rewrite (saveBlacklist_refused integerInput accessRow w Hnone).
    + intros n Hn He1 He2 Hrev.
      assert (Hsave : saveBlacklist integerInput accessRow w
                      = (Ok tt, revoke accessRow w,
                         [EvBlacklistSave accessRow])).
      { apply (saveBlacklist_accepted integerInput accessRow w n Hn);
          [simpl; lia|exact Hrev]. }
      split.
      * intros Hno. apply supplied_none in Hno. unfold bind.
        rewrite Hsave.
        destruct (supplied refreshToken) as [rt|]; [|reflexivity].
        by rewrite Hno.
      * intros rt e' s' owner' -> Hdec' ->. rewrite <- Howner.
        assert (Hsup : supplied (Some rt) = Some rt).
        { destruct Hdec' as (d & Hd & _). by destruct rt as [? ?|[|? ?]]. }
        apply expAndSub_decodes in Hdec'. unfold bind.
        rewrite Hsave, Hsup, Hdec'.
        set (refreshRow := {| token := rt; expiresAt := e' * 1000;
                              userId := ownerOf userId s';
                              reason := "logout" |}).
        split.
        -- intros Hnone.
           by rewrite (saveBlacklist_refused integerInput refreshRow _ Hnone).
        -- intros n' Hn' He1' He2' Hrev' Hne.
           rewrite (saveBlacklist_accepted integerInput refreshRow
                      (revoke accessRow w) n' Hn').
           ++ unfold result, world. simpl. by rewrite <- app_assoc.
           ++ simpl. lia.
           ++ apply blacklisted_false. rewrite blacklisted_revoke.
              subst refreshRow accessRow. cbn [token].
              apply blacklisted_false in Hrev'. rewrite Hrev'.
              apply bool_decide_eq_false. congruence.
Qed.

Lemma logout_outcome_witness :
  logout Pg.integerInput Examples.daveAccessToken
         (Some Examples.daveRefreshToken) None Scenario.world0
  = (Throw QueryFailedError, Scenario.world0,
     [EvBlacklistSave
        {| token := Examples.daveAccessToken; expiresAt := 1900000;
           userId := "123e4567-e89b-12d3-a456-426614174000";
           reason := "logout" |}])
  /\ logout Pg.integerInput Examples.numericAccessToken
            (Some (Opaque "not-a-jwt")) None Scenario.world0
     = (Ok tt,
        revoke {| token := Examples.numericAccessToken;
                  expiresAt := 1900000; userId := "42";
                  reason := "logout" |} Scenario.world0,
        [EvBlacklistSave {| token := Examples.numericAccessToken;
                            expiresAt := 1900000; userId := "42";
                            reason := "logout" |}]).
Proof.
  split.
  - destruct (logout_outcome Pg.integerInput Scenario.world0
                Examples.daveAccessToken (Some Examples.daveRefreshToken)
                None) as (_ & _ & H).
    destruct (H 1900 "123e4567-e89b-12d3-a456-426614174000"
                "123e4567-e89b-12d3-a456-426614174000") as [Hfail _].
    + eexists. repeat split; discriminate.
    + reflexivity.
    + apply Hfail. reflexivity.
  - destruct (logout_outcome Pg.integerInput Scenario.world0
                Examples.numericAccessToken (Some (Opaque "not-a-jwt"))
                None) as (_ & _ & H).
    destruct (H 1900 "42" "42") as [_ Hok].
    + eexists. repeat split; discriminate.
    + reflexivity.
    + destruct (Hok 42 eq_refl) as [Hfirst _]; [lia|lia| |].
      * intros (row & [] & _).
      * apply Hfirst. right. right. exists (Opaque "not-a-jwt").
        split; [reflexivity|exact I].
Defined.

Lemma find_filter {A} (f g : A -> bool) l :
  List.find f (List.filter g l) = List.find (fun x => g x && f x) l.
Proof.
  induction l as [|x l IH]; simpl; [reflexivity|].
  destruct (g x); simpl; [|exact IH].
  destruct (f x); [reflexivity|exact IH].
Qed.

(** A lookup that misses the cache consults the store and caches what it
    found, a negative answer as the empty string. *)
Lemma getAction_miss {E} w m r :
  cache w !! cacheKey m r = None ->
  @getAction E m r w =
  match resolve (permissions w) m r with
  | Some p =>
      (Ok (Some (action p)),
       setCache (<[cacheKey m r := action p]> (cache w)) w,
       EvPermissionFindOne m r ::
         match List.find (fun p => String.eqb (method p) m
                                   && String.eqb (route p) r)
                         (permissions w) with
         | Some _ => []
         | None => [EvPermissionFind m]
         end)
  | None =>
      (Ok None, setCache (<[cacheKey m r := ""]> (cache w)) w,
       [EvPermissionFindOne m r; EvPermissionFind m])
  end.
Proof.
  intros Hmiss.
  unfold getAction, resolve, findOneByRoute, findPermissionByPattern.
  unfold_monad. simpl. rewrite Hmiss. simpl.
  destruct (List.find (fun p => String.eqb (method p) m
                               && String.eqb (route p) r) (permissions w))
    as [p|]; simpl.
  - reflexivity.
  - rewrite find_filter.
    destruct (List.find (fun p => String.eqb (method p) m
                                 && matchesRoutePattern r (route p))
                        (permissions w)) as [p|]; reflexivity.
Qed.

(** A lookup that hits the cache answers from it and touches nothing. *)
Lemma getAction_hit {E} w m r cached :
  cache w !! cacheKey m r = Some cached ->
  @getAction E m r w = (Ok (orNull cached), w, []).
Proof.
  intros Hhit. unfold getAction. unfold_monad. simpl. by rewrite Hhit.
Qed.

Lemma segmentsMatch_Forall2 a p :
  length a = length p ->
  segmentsMatch a p = true <-> Forall2 segmentAgrees a p.
Proof.
  revert p. induction a as [|x a IH]; intros [|y p] Hlen; simpl in *;
    try discriminate.
  - split; [constructor|done].
  - injection Hlen as Hlen. specialize (IH p Hlen).
    unfold segmentAgrees at 1.
    destruct (Js.startsWith ":" y) eqn:Hy.
    + rewrite IH. split.
      * intros H. constructor; [by left|done].
      * by inversion 1.
    + destruct (String.eqb x y) eqn:Hxy; simpl.
      * apply String.eqb_eq in Hxy. rewrite IH. split.
        -- intros H. constructor; [by right|done].
        -- by inversion 1.
      * apply String.eqb_neq in Hxy. split; [discriminate|].
        inversion 1 as [|? ? ? ? [Hc|Hc] ?]; subst; congruence.
Qed.

Lemma Forall2_segmentAgrees_refl l : Forall2 segmentAgrees l l.
Proof. induction l; constructor; [by right|done]. Qed.

Lemma matchesRoutePattern_spec actual pattern :
  matchesRoutePattern actual pattern = true <->
  Forall2 segmentAgrees (segments actual) (segments pattern).
Proof.
  unfold matchesRoutePattern. fold (segments actual) (segments pattern).
  destruct (String.eqb actual pattern) eqn:Heq.
  - apply String.eqb_eq in Heq. subst.
    split; [intros _; apply Forall2_segmentAgrees_refl|done].
  - destruct (Nat.eqb (length (segments actual)) (length (segments pattern)))
      eqn:Hlen; simpl.
    + apply Nat.eqb_eq in Hlen. by apply segmentsMatch_Forall2.
    + apply Nat.eqb_neq in Hlen. split; [discriminate|].
      intros H. apply Forall2_length in H. done.
Qed.

(** C3, as stated, fails on a path with an empty segment: with
    (GET, /users, user:list) stored, the path /users/ resolves to user:list,
    while splitting both on '/' gives two segments against three and no
    match. *)
Lemma trailing_slash_resolves :
  Js.split "/" "/users/" = [""; "users"; ""]
  /\ Js.split "/" "/users" = [""; "users"]
  /\ specResolveAction (permissions Scenario.world0) "GET" "/users/" = None
  /\ result (getAction (E:=Exception) "GET" "/users/" Scenario.world0)
     = Ok (Some "user:list").
Proof. repeat split; vm_compute; reflexivity. Qed.

(** C3 (amended): a lookup that is not answered from the cache returns the
    action of the first stored permission with exactly this method and
    path when there is one, otherwise the action of the first stored
    permission of this method whose pattern matches the path, otherwise
    null. A pattern matches when, after splitting both on '/' and dropping
    the empty segments, the segment counts agree and each pattern segment
    begins with ':' or equals the path segment. The pattern
    /role-permissions/:roleId/permissions matches
    /role-permissions/42/permissions and not /role-permissions/42/other. *)
Theorem getAction_resolves_first_match w m r :
  cache w !! cacheKey m r = None ->
  result (getAction (E:=Exception) m r w)
  = Ok (option_map action (resolve (permissions w) m r))
  /\ (forall p, List.find (fun p => String.eqb (method p) m
                                    && String.eqb (route p) r)
                          (permissions w) = Some p ->
                resolve (permissions w) m r = Some p)
  /\ (List.find (fun p => String.eqb (method p) m
                          && String.eqb (route p) r) (permissions w) = None ->
      resolve (permissions w) m r
      = List.find (fun p => String.eqb (method p) m
                            && matchesRoutePattern r (route p))
                  (permissions w))
  /\ (forall actual pattern,
        matchesRoutePattern actual pattern = true <->
        Forall2 segmentAgrees (segments actual) (segments pattern))
  /\ matchesRoutePattern "/role-permissions/42/permissions"
                         "/role-permissions/:roleId/permissions" = true
  /\ matchesRoutePattern "/role-permissions/42/other"
                         "/role-permissions/:roleId/permissions" = false.
Proof.
  intros Hmiss. split; [|split; [|split; [|split; [|split]]]].
  - rewrite (getAction_miss w m r Hmiss).
    by destruct (resolve (permissions w) m r).
  - intros p Hp. unfold resolve. by rewrite Hp.
  - intros Hnone. unfold resolve. by rewrite Hnone.
  - apply matchesRoutePattern_spec.
  - vm_compute. reflexivity.
  - vm_compute. reflexivity.
Qed.

Lemma getAction_resolves_first_match_witness :
  result (getAction (E:=Exception) "GET" "/users" Scenario.world0)
  = Ok (Some "user:list")
  /\ result (getAction (E:=Exception) "GET" "/users/42"
               (setPermissions [Scenario.usersList; Scenario.userDetail]
                               Scenario.world0))
     = Ok (Some "user:detail").
Proof.
  split.
  - destruct (getAction_resolves_first_match Scenario.world0 "GET" "/users"
                eq_refl) as (H & _). exact H.
  - destruct (getAction_resolves_first_match
                (setPermissions [Scenario.usersList; Scenario.userDetail]
                                Scenario.world0) "GET" "/users/42" eq_refl)
      as (H & _). exact H.
Defined.

Lemma find_app_exact (perms : list Permission) p m r :
  method p = m -> route p = r ->
  exists q, List.find (fun p => String.eqb (method p) m
                                && String.eqb (route p) r)
                      (perms ++ [p]) = Some q.
Proof.
  intros Hm Hr. induction perms as [|x l IH]; simpl.
  - rewrite Hm, Hr, !String.eqb_refl. simpl. by eexists.
  - destruct (_ && _); [by eexists|exact IH].
Qed.






Lemma actionMalformed_count a :
  actionMalformed a = negb (Nat.eqb (Js.count ":" a) 1).
Proof.
  unfold actionMalformed. rewrite split_length, includes_count.
  destruct (Js.count ":" a) as [|[|n]]; reflexivity.
Qed.

Lemma find_triple_none w m r a :
  catalogWellFormed w -> ~ wellFormedAction a ->
  List.find (fun p => String.eqb (method p) m && String.eqb (route p) r
                      && String.eqb (action p) a) (permissions w) = None.
Proof.
  unfold catalogWellFormed. intros Hwf Hbad.
  induction Hwf as [|p l Hp Hl IH]; simpl; [reflexivity|].
  destruct (String.eqb (action p) a) eqn:Ha.
  - apply String.eqb_eq in Ha. subst. contradiction.
  - by rewrite andb_false_r.
Qed.

(** Both registration paths keep every stored action well formed. *)
Lemma createPermission_keeps_catalog m r a w :
  catalogWellFormed w -> catalogWellFormed (world (createPermission m r a w)).
Proof.
  intros Hwf. unfold createPermission, findOneByTriple, savePermission.
  unfold_monad. simpl.
  destruct (List.find _ (permissions w)) as [q|]; simpl; [exact Hwf|].
  destruct (actionMalformed a) eqn:Ha; simpl; [exact Hwf|].
  unfold catalogWellFormed. simpl. apply Forall_app. split; [exact Hwf|].
  constructor; [|constructor]. simpl. unfold wellFormedAction.
  rewrite actionMalformed_count in Ha.
  by apply negb_false_iff, Nat.eqb_eq in Ha.
Qed.

Lemma findOrCreatePermissionInternal_keeps_catalog m r a w :
  catalogWellFormed w ->
  catalogWellFormed (world (findOrCreatePermissionInternal m r a w)).
Proof.
  intros Hwf.
  unfold findOrCreatePermissionInternal, findOneByTriple, savePermission.
  unfold_monad. simpl.
  destruct (List.find _ (permissions w)) as [q|]; simpl; [exact Hwf|].
  destruct (actionMalformed a) eqn:Ha; simpl; [exact Hwf|].
  unfold catalogWellFormed. simpl. apply Forall_app. split; [exact Hwf|].
  constructor; [|constructor]. simpl. unfold wellFormedAction.
  rewrite actionMalformed_count in Ha.
  by apply negb_false_iff, Nat.eqb_eq in Ha.
Qed.

(** C7: on a catalog whose stored actions have the module:operation shape
    (the invariant of the data model, which both registration paths keep),
    createPermission and findOrCreatePermissionInternal reject every action
    that does not contain exactly one ':' with the action-format error, and
    the store, the cache included, is left as it was: no permission record
    is created. *)
Theorem malformed_action_rejected w m r a :
  catalogWellFormed w ->
  Js.count ":" a <> 1%nat ->
  (result (createPermission m r a w) = Throw ActionFormatError
   /\ world (createPermission m r a w) = w)
  /\ (result (findOrCreatePermissionInternal m r a w)
      = Throw ActionFormatError
      /\ world (findOrCreatePermissionInternal m r a w) = w)
  /\ status ActionFormatError = 400.
Proof.
  intros Hwf Hbad.
  assert (Hmal : actionMalformed a = true).
  { rewrite actionMalformed_count. apply negb_true_iff, Nat.eqb_neq, Hbad. }
  unfold createPermission, findOrCreatePermissionInternal, findOneByTriple.
  unfold_monad. simpl.
  rewrite !(find_triple_none w) by done. simpl. rewrite Hmal. simpl.
  repeat split.
Qed.

Lemma malformed_action_rejected_witness :
  (result (createPermission "GET" "/api/v1/users" "UserList" Scenario.world0)
   = Throw ActionFormatError
   /\ world (createPermission "GET" "/api/v1/users" "UserList"
               Scenario.world0) = Scenario.world0)
  /\ (result (findOrCreatePermissionInternal "GET" "/api/v1/users"
                "user:list:extra" Scenario.world0)
      = Throw ActionFormatError
      /\ world (findOrCreatePermissionInternal "GET" "/api/v1/users"
                  "user:list:extra" Scenario.world0) = Scenario.world0).
Proof.
  assert (Hwf : catalogWellFormed Scenario.world0).
  { constructor; [reflexivity|constructor]. }
  destruct (malformed_action_rejected Scenario.world0 "GET" "/api/v1/users"
              "UserList" Hwf) as (H1 & _ & _); [discriminate|].
  destruct (malformed_action_rejected Scenario.world0 "GET" "/api/v1/users"
              "user:list:extra" Hwf) as (_ & H2 & _); [discriminate|].
  split; [exact H1|exact H2].
Defined.

(** ** The request pipeline *)

(** The catalog never throws, and only makes catalog lookups. *)
Lemma getAction_returns {E} m r w :
  exists a w' ev, @getAction E m r w = (Ok a, w', ev)
                  /\ forallb isCatalogLookup ev = true.
Proof.
  unfold getAction, findOneByRoute, findPermissionByPattern.
  unfold_monad. simpl.
  destruct (cache w !! cacheKey m r) as [c|]; simpl.
  - by repeat eexists.
  - destruct (List.find (fun p => String.eqb (method p) m
                                  && String.eqb (route p) r) (permissions w))
      as [p|]; simpl.
    + by repeat eexists.
    + destruct (List.find _ (List.filter _ (permissions w))) as [p|]; simpl;
        by repeat eexists.
Qed.

Lemma tryRoutes_returns m routes w :
  exists a w' ev, tryRoutes m routes w = (Ok a, w', ev)
                  /\ forallb isCatalogLookup ev = true.
Proof.
  revert w. induction routes as [|r routes IH]; intros w; simpl.
  - by repeat eexists.
  - unfold bind.
    destruct (getAction_returns (E:=Exception) m r w)
      as (a & w1 & ev1 & -> & H1).
    assert (Hrest : exists a' w' ev,
               (let (p, ev2) := tryRoutes m routes w1 in
                let (r0, w2) := p in (r0, w2, ev1 ++ ev2))
               = (Ok a', w', ev) /\ forallb isCatalogLookup ev = true).
    { destruct (IH w1) as (a' & w2 & ev2 & -> & H2).
      exists a', w2, (ev1 ++ ev2). split; [reflexivity|].
      by rewrite forallb_app, H1, H2. }
    destruct a as [s|]; [|exact Hrest].
    destruct (Js.truthy s); [|exact Hrest].
    unfold ret. exists (Some s), w1, (ev1 ++ []). split; [reflexivity|].
    by rewrite app_nil_r.
Qed.

(** The resolver always produces an action. *)
Lemma inferAction_returns urlPathname req w :
  exists a w' ev, inferAction urlPathname req w = (Ok a, w', ev)
                  /\ forallb isCatalogLookup ev = true.
Proof.
  unfold inferAction, bind.
  destruct (tryRoutes_returns (req_method req)
              (getPossibleRoutes req
                 (stripApiVersion (getFullRoutePath urlPathname req))) w)
    as (a & w1 & ev1 & -> & H1).
  destruct a as [s|]; unfold ret; repeat eexists; by rewrite app_nil_r.
Qed.

(** The resolver fails exactly on a request target that the URL constructor
    refuses, before any lookup. *)
Lemma fallible_getFullRoutePath parseUrl req w :
  Fallible.getFullRoutePath parseUrl req w
  = if Js.truthy (originalUrl req)
    then match parseUrl (originalUrl req)
                 ("http://" +:+ match host req with
                                | Some h =>
                                    if Js.truthy h then h else "localhost"
                                | None => "localhost"
                                end) with
         | Some pathname => (Ok pathname, w, [])
         | None => (Throw InvalidUrlError, w, [])
         end
    else (Ok (getFullRoutePath (fun _ _ => "") req), w, []).
Proof.
  unfold Fallible.getFullRoutePath, getFullRoutePath.
  destruct (Js.truthy (originalUrl req)).
  - by destruct (parseUrl _ _).
  - cbv zeta. by destruct (_ && _).
Qed.

(** Where the URL constructor accepts the request target, the step is the
    one of [authorize] over the pathname it returns. *)
Lemma fallible_authorize_parsed parseUrl req w pathname :
  Js.truthy (originalUrl req) = true ->
  parseUrl (originalUrl req)
           ("http://" +:+ match host req with
                          | Some h => if Js.truthy h then h else "localhost"
                          | None => "localhost"
                          end) = Some pathname ->
  Fallible.authorize parseUrl req w
  = authorize (fun _ _ => pathname) req w.
Proof.
  intros Ht Hp.
  unfold Fallible.authorize, authorize, Fallible.inferAction, inferAction.
  unfold bind. rewrite fallible_getFullRoutePath, Ht, Hp.
  unfold getFullRoutePath. rewrite Ht. cbv zeta.
  destruct (tryRoutes _ _ w) as [[[[a|]|e] w1] ev1]; unfold ret; simpl;
    try reflexivity;
    by destruct (isAuthorized _ _ _ w1) as [[[[|]|e] w2] ev2].
Qed.

Lemma fallible_authorize_fallback parseUrl req w :
  Js.truthy (originalUrl req) = false ->
  Fallible.authorize parseUrl req w = authorize (fun _ _ => "") req w.
Proof.
  intros Ht.
  unfold Fallible.authorize, authorize, Fallible.inferAction, inferAction.
  unfold bind. rewrite fallible_getFullRoutePath, Ht.
  destruct (tryRoutes _ _ w) as [[[[a|]|e] w1] ev1]; unfold ret; simpl;
    try reflexivity;
    by destruct (isAuthorized _ _ _ w1) as [[[[|]|e] w2] ev2].
Qed.

Lemma fallible_authorize_refused parseUrl req w :
  Js.truthy (originalUrl req) = true ->
  parseUrl (originalUrl req)
           ("http://" +:+ match host req with
                          | Some h => if Js.truthy h then h else "localhost"
                          | None => "localhost"
                          end) = None ->
  Fallible.inferAction parseUrl req w = (Throw InvalidUrlError, w, [])
  /\ Fallible.authorize parseUrl req w = (Throw InvalidUrlError, w, []).
Proof.
  intros Ht Hp.
  unfold Fallible.authorize, Fallible.inferAction.
  unfold bind. rewrite fallible_getFullRoutePath, Ht, Hp. by split.
Qed.

Lemma authorize_empty_roles urlPathname req w :
  requestRoles req = [] ->
  result (authorize urlPathname req w) = Throw ForbiddenException
  /\ forallb isCatalogLookup (events (authorize urlPathname req w)) = true.
Proof.
  intros Hroles. unfold authorize, bind. rewrite Hroles.
  destruct (inferAction_returns urlPathname req w) as (a & w1 & ev1 & -> & H1).
  unfold isAuthorized, ret, throw, result, events. simpl.
  by rewrite !app_nil_r.
Qed.

(** C10, as stated, fails when the resolver fails. GET /api/v1/roles with
    the header Host: bad host and no user: the URL constructor refuses the
    base http://bad host, the error leaves the resolver and authorize hands
    it on, which is answered with status 500, not 403. The same happens
    after authenticate has accepted the access token of dave, whose role
    list is empty. *)
Lemma authorize_forwards_url_error :
  req_user Examples.badHostRequest = None
  /\ Fallible.authorize Examples.parseUrl Examples.badHostRequest
       Scenario.world0
     = (Throw InvalidUrlError, Scenario.world0, [])
  /\ status InvalidUrlError = 500
  /\ InvalidUrlError <> ForbiddenException
  /\ exists decoded,
       result (authenticate Scenario.cfg Examples.daveBadHostRequest 1060
                 Examples.worldWithDave)
       = Ok (setUser decoded Examples.daveBadHostRequest)
       /\ claim_roles decoded = Some []
       /\ result (Fallible.authorize Examples.parseUrl
                    (setUser decoded Examples.daveBadHostRequest)
                    Examples.worldWithDave)
          = Throw InvalidUrlError.
Proof.
  split; [reflexivity|]. split; [vm_compute; reflexivity|].
  split; [reflexivity|]. split; [discriminate|].
  eexists. split; [vm_compute; reflexivity|].
  split; vm_compute; reflexivity.
Qed.

(** C10 (amended): when the request carries no user, or a user whose role
    list is absent or empty, the role list handed to isAuthorized is empty,
    and isAuthorized answers false for it without a call. The authorize
    step then ends in Forbidden (status 403) whenever its resolver returns
    an action, the only calls being the catalog lookups of the resolver.
    The resolver fails exactly when the request target is not empty and
    the URL constructor refuses it against the base built from the Host
    header; authorize then hands that error on, without any call, and it
    is answered with status 500. In neither case is the outcome a pass or
    Unauthorized. *)
Theorem authorize_without_roles parseUrl req w :
  req_user req = None
  \/ (exists decoded, req_user req = Some decoded
        /\ (claim_roles decoded = None \/ claim_roles decoded = Some [])) ->
  requestRoles req = []
  /\ (forall m a w1,
        events (isAuthorized (E:=Exception) [] m a w1) = []
        /\ result (isAuthorized (E:=Exception) [] m a w1) = Ok false)
  /\ (forall a,
        result (Fallible.inferAction parseUrl req w) = Ok a ->
        result (Fallible.authorize parseUrl req w) = Throw ForbiddenException
        /\ forallb isCatalogLookup
             (events (Fallible.authorize parseUrl req w)) = true
        /\ (forall m' a', ~ In (EvRolePermissionExists m' a')
                              (events (Fallible.authorize parseUrl req w))))
  /\ (forall e,
        result (Fallible.inferAction parseUrl req w) = Throw e ->
        e = InvalidUrlError
        /\ Fallible.authorize parseUrl req w = (Throw InvalidUrlError, w, []))
  /\ ((exists e, result (Fallible.inferAction parseUrl req w) = Throw e)
      <-> originalUrl req <> ""
          /\ parseUrl (originalUrl req)
                      ("http://" +:+ match host req with
                                     | Some h =>
                                         if Js.truthy h then h
                                         else "localhost"
                                     | None => "localhost"
                                     end) = None)
  /\ (exists e, result (Fallible.authorize parseUrl req w) = Throw e
                /\ isUnauthorized e = false)
  /\ status ForbiddenException = 403
  /\ status InvalidUrlError = 500.
Proof.
  intros Hreq.
  assert (Hroles : requestRoles req = []).
  { unfold requestRoles.
    destruct Hreq as [-> | (d & -> & [-> | ->])]; reflexivity. }
  assert (Hforbidden : forall urlPathname,
             result (authorize urlPathname req w) = Throw ForbiddenException
             /\ forallb isCatalogLookup (events (authorize urlPathname req w))
                = true
             /\ (forall m' a', ~ In (EvRolePermissionExists m' a')
                                   (events (authorize urlPathname req w)))).
  { intros urlPathname.
    destruct (authorize_empty_roles urlPathname req w Hroles) as [H1 H2].
    split; [exact H1|]. split; [exact H2|].
    intros m' a' Hin. rewrite forallb_forall in H2. apply H2 in Hin.
    discriminate. }
  assert (Htruthy : Js.truthy (originalUrl req) = true
                    <-> originalUrl req <> "").
  { destruct (originalUrl req); simpl; split; congruence. }
  set (base := "http://" +:+ match host req with
                             | Some h => if Js.truthy h then h else "localhost"
                             | None => "localhost"
                             end).
  assert (Hcases :
            (Js.truthy (originalUrl req) = true
             /\ parseUrl (originalUrl req) base = None
             /\ Fallible.inferAction parseUrl req w
                = (Throw InvalidUrlError, w, [])
             /\ Fallible.authorize parseUrl req w
                = (Throw InvalidUrlError, w, []))
            \/ ((Js.truthy (originalUrl req) = false
                 \/ exists p, parseUrl (originalUrl req) base = Some p)
                /\ (exists a, result (Fallible.inferAction parseUrl req w)
                              = Ok a)
                /\ exists urlPathname,
                     Fallible.authorize parseUrl req w
                     = authorize urlPathname req w)).
  { destruct (Js.truthy (originalUrl req)) eqn:Ht.
    - destruct (parseUrl (originalUrl req) base) as [p|] eqn:Hp.
      + right. split; [right; by exists p|]. split.
        * unfold Fallible.inferAction, bind.
          rewrite fallible_getFullRoutePath, Ht. fold base. rewrite Hp.
          destruct (tryRoutes_returns (req_method req)
                      (getPossibleRoutes req (stripApiVersion p)) w)
            as (a & w1 & ev1 & -> & _).
          destruct a as [s|]; by eexists.
        * exists (fun _ _ => p).
          by apply fallible_authorize_parsed.
      + left. split; [reflexivity|]. split; [reflexivity|].
        by apply fallible_authorize_refused.
    - right. split; [by left|]. split.
      + unfold Fallible.inferAction, bind.
        rewrite fallible_getFullRoutePath, Ht.
        destruct (tryRoutes_returns (req_method req)
                    (getPossibleRoutes req
                       (stripApiVersion
                          (getFullRoutePath (fun _ _ => "") req))) w)
          as (a & w1 & ev1 & -> & _).
        destruct a as [s|]; by eexists.
      + exists (fun _ _ => ""). by apply fallible_authorize_fallback. }
  split; [exact Hroles|]. split; [by intros m a w1|].
  destruct Hcases as [(Ht & Hp & Hinfer & Hauth)
                     |(Hparsed & [a Ha] & urlPathname & Hauth)].
  - split; [intros a Ha; rewrite Hinfer in Ha; discriminate|].
    split.
    { intros e He. rewrite Hinfer in He. injection He as <-. by split. }
    split.
    { split; [intros _; split; [by apply Htruthy|exact Hp]|].
      intros _. exists InvalidUrlError. by rewrite Hinfer. }
    split; [|by split].
    exists InvalidUrlError. by rewrite Hauth.
  - rewrite Hauth. destruct (Hforbidden urlPathname) as (H1 & H2 & H3).
    split; [intros a' _; split; [exact H1|split; [exact H2|exact H3]]|].
    split; [intros e He; rewrite Ha in He; discriminate|].
    split.
    { split; [intros [e He]; rewrite Ha in He; discriminate|].
      intros [Hne Hp]. apply Htruthy in Hne.
      destruct Hparsed as [Hf|[p Hp']]; congruence. }
    split; [|by split].
    exists ForbiddenException. by split.
Qed.

Lemma authorize_without_roles_witness :
  Fallible.authorize Examples.parseUrl Examples.badHostRequest
    Scenario.world0
  = (Throw InvalidUrlError, Scenario.world0, [])
  /\ result (Fallible.authorize Examples.parseUrl Scenario.request
               Scenario.world0)
     = Throw ForbiddenException.
Proof.
  split.
  - destruct (authorize_without_roles Examples.parseUrl
                Examples.badHostRequest Scenario.world0)
      as (_ & _ & _ & H & _); [by left|].
    apply (H InvalidUrlError). vm_compute. reflexivity.
  - destruct (authorize_without_roles Examples.parseUrl Scenario.request
                Scenario.world0) as (_ & _ & H & _); [by left|].
    apply (H "user:list"). vm_compute. reflexivity.
Defined.

(** The array that authorize hands to isAuthorized holds the role objects of
    the token payload, so no role name of the store is found in it. *)
Lemma nameIn_requestRoles n req : nameIn n (requestRoles req) = false.
Proof.
  unfold requestRoles.
  destruct (req_user req) as [d|]; [|reflexivity].
  destruct (claim_roles d) as [rs|]; [|reflexivity].
  induction rs as [|x rs IH]; [reflexivity|exact IH].
Qed.



(** ** Remarks on the parts around the claims *)

(** The third registration path validates nothing: it stores an action of
    any shape. It has no caller in the repository. *)
Remark findOrCreatePermission_stores_any_action w :
  permissions (world (findOrCreatePermission (E:=Exception)
                        "GET" "/reports" "ReportList" w))
  = permissions w
    ++ match List.find (fun p => String.eqb (method p) "GET"
                                 && String.eqb (route p) "/reports"
                                 && String.eqb (action p) "ReportList")
                       (permissions w) with
       | Some _ => []
       | None => [ {| method := "GET"; route := "/reports";
                      action := "ReportList" |} ]
       end.
Proof.
  unfold findOrCreatePermission, findOneByTriple, savePermission.
  unfold_monad. simpl.
  destruct (List.find _ (permissions w)); simpl; [by rewrite app_nil_r|done].
Qed.

(** The naming convention the resolver falls back to. *)
Example convention_list :
  inferActionFromConvention "GET" "/orders" = "orders:list".
Proof. reflexivity. Qed.

Example convention_detail :
  inferActionFromConvention "GET" "/orders/42" = "orders:detail".
Proof. reflexivity. Qed.

Example convention_literal :
  inferActionFromConvention "GET" "/users/profile" = "users:profile".
Proof. reflexivity. Qed.

Example convention_post :
  inferActionFromConvention "POST" "/users/assign-role" = "users:assign-role"
  /\ inferActionFromConvention "POST" "/users" = "users:create".
Proof. split; reflexivity. Qed.

Example convention_other_methods :
  inferActionFromConvention "PATCH" "/users/42" = "users:update"
  /\ inferActionFromConvention "DELETE" "/users/42" = "users:delete"
  /\ inferActionFromConvention "OPTIONS" "/" = "unknown:options".
Proof. repeat split; reflexivity. Qed.

(** The route variations tried for GET /api/v1/users/42 on the users
    router. *)
Example possible_routes :
  getPossibleRoutes
    {| req_method := "GET"; originalUrl := "/api/v1/users/42"; host := None;
       baseUrl := "/api/v1/users"; req_path := "/42";
       req_routePath := Some "/:id"; authorization := None;
       req_user := None |}
    "/users/42"
  = ["/users/42"; "/42"; "/:id"; "users/42"].
Proof. reflexivity. Qed.

(** * Further properties *)

Ltac nodup :=
  repeat (apply List.NoDup_cons; [simpl; intuition discriminate|]);
  apply List.NoDup_nil.

Lemma find_app_new {A} (f : A -> bool) l x :
  List.find f l = None -> f x = true -> List.find f (l ++ [x]) = Some x.
Proof.
  induction l as [|y l IH]; simpl; intros Hn Hx; [by rewrite Hx|].
  destruct (f y); [discriminate|by apply IH].
Qed.

Lemma find_none_filter {A} (f : A -> bool) l :
  List.find f l = None -> List.filter f l = [].
Proof.
  induction l as [|x l IH]; simpl; [done|].
  destruct (f x); [discriminate|exact IH].
Qed.

Lemma find_some_filter {A} (f : A -> bool) l p :
  List.find f l = Some p -> (1 <= length (List.filter f l))%nat.
Proof.
  induction l as [|x l IH]; simpl; [discriminate|].
  destruct (f x); simpl; [lia|exact IH].
Qed.

(** ** Token verification *)

Lemma validateToken_throw_inv cfg tok ty now w e :
  result (validateToken cfg tok ty now w) = Throw e ->
  exists c, e = InvalidToken c.
Proof.
  rewrite validateToken_unfold.
  destruct (blacklisted w tok); [intros [= <-]; eauto|].
  destruct (jwt_verify tok (secret cfg) now) as [e0|d];
    [intros [= <-]; eauto|].
  destruct (negb _); [intros [= <-]; eauto|].
  destruct ty; [|discriminate]. unfold result; simpl.
  destruct (principal w (sub d)) as [u|]; simpl; [|intros [= <-]; eauto].
  unfold roleCheck. destruct (negb (isActive u)); [intros [= <-]; eauto|].
  destruct (claim_roles d); [|intros [= <-]; eauto].
  destruct (negb _); [intros [= <-]; eauto|]. discriminate.
Qed.

Lemma validateToken_ok_inv cfg tok ty now w decoded :
  result (validateToken cfg tok ty now w) = Ok decoded ->
  ~ revoked w tok
  /\ jwt_verify tok (secret cfg) now = inr decoded
  /\ typ decoded = typeTag ty
  /\ (ty = access ->
      exists u rs, principal w (sub decoded) = Some u
                   /\ isActive u = true
                   /\ claim_roles decoded = Some rs
                   /\ areArraysEqual (map role_name (roles u))
                                     (map role_name rs) = true).
Proof.
  rewrite validateToken_unfold.
  destruct (blacklisted w tok) eqn:Hbl; [discriminate|].
  apply blacklisted_false in Hbl.
  destruct (jwt_verify tok (secret cfg) now) as [e|d] eqn:Hv; [discriminate|].
  destruct (String.eqb (typ d) (typeTag ty)) eqn:Ht; simpl; [|discriminate].
  apply String.eqb_eq in Ht.
  destruct ty; unfold result; simpl.
  - destruct (principal w (sub d)) as [u|] eqn:Hu; simpl; [|discriminate].
    unfold roleCheck.
    destruct (isActive u) eqn:Hact; simpl; [|discriminate].
    destruct (claim_roles d) as [rs|] eqn:Hrs; simpl; [|discriminate].
    destruct (areArraysEqual _ _) eqn:Heq; simpl; [|discriminate].
    intros [= <-]. repeat split; try done. intros _. exists u, rs.
    by rewrite Hu.
  - intros [= <-]. repeat split; try done.
Qed.

(** X1: validateToken only reads the stores, fails with nothing but a 401
    "Invalid token" error, and accepts a token only if it is not
    blacklisted, verifies under the secret at that time and carries the
    expected type; an accepted access token moreover names a stored, active
    user whose role names pass the comparison with the token's. *)
Theorem validateToken_sound cfg tok ty now w :
  world (validateToken cfg tok ty now w) = w
  /\ (forall e, result (validateToken cfg tok ty now w) = Throw e ->
                status e = 401 /\ exists c, e = InvalidToken c)
  /\ (forall decoded,
        result (validateToken cfg tok ty now w) = Ok decoded ->
        ~ revoked w tok
        /\ jwt_verify tok (secret cfg) now = inr decoded
        /\ typ decoded = typeTag ty
        /\ (ty = access ->
            exists u rs, principal w (sub decoded) = Some u
                         /\ isActive u = true
                         /\ claim_roles decoded = Some rs
                         /\ areArraysEqual (map role_name (roles u))
                                           (map role_name rs) = true)).
Proof.
  split; [apply validateToken_world|]. split.
  - intros e He. destruct (validateToken_throw_inv _ _ _ _ _ _ He) as [c ->].
    split; [reflexivity|by exists c].
  - apply validateToken_ok_inv.
Qed.

(** With unique pids, a stored user is the principal of its pid. *)
Lemma principal_of_member w u :
  List.NoDup (map pid (users w)) -> In u (users w) ->
  principal w (pid u) = Some u.
Proof.
  unfold principal. induction (users w) as [|x l IH]; simpl; [done|].
  intros Hnd [->|Hin].
  - by rewrite String.eqb_refl.
  - inversion Hnd as [|? ? Hx Hl]; subst.
    destruct (String.eqb (pid x) (pid u)) eqn:Heq.
    + apply String.eqb_eq in Heq. exfalso. apply Hx. rewrite Heq.
      by apply in_map.
    + by apply IH.
Qed.

(** A token of [u] issued at [issuedAt] verifies until it expires. *)
Lemma access_token_window cfg w u issuedAt now :
  principal w (pid u) = Some u ->
  isActive u = true ->
  ~ revoked w (generateAccessToken cfg u issuedAt) ->
  now < issuedAt + accessTokenExpiry cfg ->
  exists c, result (validateToken cfg (generateAccessToken cfg u issuedAt)
                                  access now w) = Ok c
            /\ sub c = pid u
            /\ claim_roles c = Some (roles u)
            /\ exp c = Some (issuedAt + accessTokenExpiry cfg).
Proof.
  intros Hu Hact Hrev Hlt. apply blacklisted_false in Hrev.
  rewrite validateToken_unfold, Hrev.
  unfold generateAccessToken, jwt_sign, jwt_verify. simpl.
  rewrite String.eqb_refl. simpl.
  destruct (Z.leb_spec (issuedAt + accessTokenExpiry cfg) now) as [Hle|_];
    [lia|].
  simpl. rewrite Hu. simpl.
  unfold roleCheck. rewrite Hact. simpl. rewrite areArraysEqual_refl. simpl.
  eexists. repeat split.
Qed.

Lemma refresh_token_window cfg w u issuedAt now :
  principal w (pid u) = Some u ->
  isActive u = true ->
  ~ revoked w (generateRefreshToken cfg u issuedAt) ->
  now < issuedAt + refreshTokenExpiry cfg ->
  result (validateToken cfg (generateRefreshToken cfg u issuedAt) refresh
                        now w)
  = Ok {| sub := pid u; typ := "refresh"; claim_email := None;
          claim_roles := None; iat := Some issuedAt;
          exp := Some (issuedAt + refreshTokenExpiry cfg) |}
  /\ result (refreshAccessToken cfg (generateRefreshToken cfg u issuedAt)
                                now w)
     = Ok (Some (generateAccessToken cfg u now,
                 generateRefreshToken cfg u now)).
Proof.
  intros Hu Hact Hrev Hlt. apply blacklisted_false in Hrev.
  rewrite refreshAccessToken_unfold, validateToken_unfold, Hrev.
  unfold generateRefreshToken at 1 2, jwt_sign, jwt_verify. simpl.
  rewrite String.eqb_refl. simpl.
  destruct (Z.leb_spec (issuedAt + refreshTokenExpiry cfg) now) as [Hle|_];
    [lia|].
  simpl. unfold result; simpl. by rewrite Hu, Hact.
Qed.

(** X2: an access token issued at [issuedAt] to a stored, active user is
    accepted at every time before [issuedAt + accessTokenExpiry], with the
    user's pid as subject, and is refused as expired from that time on. *)
Theorem access_token_lifetime cfg w u issuedAt now :
  principal w (pid u) = Some u ->
  isActive u = true ->
  ~ revoked w (generateAccessToken cfg u issuedAt) ->
  (now < issuedAt + accessTokenExpiry cfg ->
   exists c, result (validateToken cfg (generateAccessToken cfg u issuedAt)
                                   access now w) = Ok c
             /\ sub c = pid u
             /\ exp c = Some (issuedAt + accessTokenExpiry cfg))
  /\ (issuedAt + accessTokenExpiry cfg <= now ->
      result (validateToken cfg (generateAccessToken cfg u issuedAt)
                            access now w)
      = Throw (InvalidToken (JwtFailed TokenExpiredError))).
Proof.
  intros Hu Hact Hrev. split.
  - intros Hlt.
    destruct (access_token_window cfg w u issuedAt now Hu Hact Hrev Hlt)
      as (c & Hc & Hs & _ & He).
    by exists c.
  - intros Hle. apply blacklisted_false in Hrev.
    rewrite validateToken_unfold, Hrev.
    unfold generateAccessToken, jwt_sign, jwt_verify. simpl.
    rewrite String.eqb_refl. simpl.
    destruct (Z.leb_spec (issuedAt + accessTokenExpiry cfg) now); [done|lia].
Qed.

Lemma access_token_lifetime_witness :
  (exists c, result (validateToken Scenario.cfg Scenario.accessToken access
                                   1899 Scenario.world0) = Ok c
             /\ sub c = "9b2f" /\ exp c = Some 1900)
  /\ result (validateToken Scenario.cfg Scenario.accessToken access 1900
                           Scenario.world0)
     = Throw (InvalidToken (JwtFailed TokenExpiredError)).
Proof.
  assert (Hnil : ~ revoked Scenario.world0 Scenario.accessToken)
    by (intros (row & [] & _)).
  split.
  - destruct (access_token_lifetime Scenario.cfg Scenario.world0
                Scenario.alice 1000 1899 eq_refl eq_refl Hnil) as [H _].
    apply H. reflexivity.
  - destruct (access_token_lifetime Scenario.cfg Scenario.world0
                Scenario.alice 1000 1900 eq_refl eq_refl Hnil) as [_ H].
    apply H. discriminate.
Defined.

(** ** Logout *)





(** ** Refresh *)

(** X4: a pair that refreshAccessToken returns was issued for the stored,
    active user named by a refresh token that verified, and both new tokens
    verify at once (unless they are already blacklisted): the access token
    with that user's current roles, the refresh token as a refresh token. *)
Theorem refreshed_pair_verifies cfg w tok now a r :
  0 < accessTokenExpiry cfg ->
  0 < refreshTokenExpiry cfg ->
  result (refreshAccessToken cfg tok now w) = Ok (Some (a, r)) ->
  exists decoded u,
    result (validateToken cfg tok refresh now w) = Ok decoded
    /\ principal w (sub decoded) = Some u
    /\ isActive u = true
    /\ a = generateAccessToken cfg u now
    /\ r = generateRefreshToken cfg u now
    /\ (~ revoked w a ->
        exists c, result (validateToken cfg a access now w) = Ok c
                  /\ sub c = sub decoded
                  /\ claim_roles c = Some (roles u))
    /\ (~ revoked w r ->
        exists c, result (validateToken cfg r refresh now w) = Ok c
                  /\ sub c = sub decoded).
Proof.
  intros Ha Hr. rewrite refreshAccessToken_unfold.
  pose proof (validateToken_world cfg tok refresh now w) as Hw.
  destruct (validateToken cfg tok refresh now w) as [[[decoded|e] w1] ev]
    eqn:Hval; unfold result, world in *; simpl in *; [|discriminate].
  subst w1.
  destruct (principal w (sub decoded)) as [u|] eqn:Hu; [|discriminate].
  destruct (isActive u) eqn:Hact; simpl; [|discriminate].
  intros [= <- <-]. exists decoded, u.
  assert (Hpid : pid u = sub decoded).
  { unfold principal in Hu. apply find_some in Hu as [_ Hu].
    by apply String.eqb_eq in Hu. }
  assert (Hu' : principal w (pid u) = Some u) by (by rewrite Hpid).
  repeat split; try done.
  - intros Hrev.
    destruct (access_token_window cfg w u now now Hu' Hact Hrev)
      as (c & Hc & Hs & Hrs & _); [lia|].
    exists c. unfold result in Hc. rewrite Hc. repeat split; congruence.
  - intros Hrev.
    destruct (refresh_token_window cfg w u now now Hu' Hact Hrev) as [Hc _];
      [lia|].
    eexists. unfold result in Hc. rewrite Hc. split; [reflexivity|].
    simpl. congruence.
Qed.

Lemma refreshed_pair_verifies_witness :
  exists decoded u,
    result (validateToken Scenario.cfg Scenario.refreshToken refresh 1060
                          Scenario.world0) = Ok decoded
    /\ principal Scenario.world0 (sub decoded) = Some u
    /\ isActive u = true.
Proof.
  assert (Ha : 0 < accessTokenExpiry Scenario.cfg) by reflexivity.
  assert (Hr : 0 < refreshTokenExpiry Scenario.cfg) by reflexivity.
  destruct (refreshed_pair_verifies Scenario.cfg Scenario.world0
              Scenario.refreshToken 1060
              (generateAccessToken Scenario.cfg Scenario.alice 1060)
              (generateRefreshToken Scenario.cfg Scenario.alice 1060)
              Ha Hr eq_refl) as (decoded & u & H1 & H2 & H3 & _).
  by exists decoded, u.
Defined.

(** ** Authorization decision *)

Lemma nameIn_names n names :
  nameIn n (map ParamName names) = true <-> In n names.
Proof.
  unfold nameIn. rewrite existsb_exists. split.
  - intros (p & Hin & Hp). apply in_map_iff in Hin as (x & <- & Hx).
    apply String.eqb_eq in Hp. by subst.
  - intros Hin. exists (ParamName n). split; [by apply in_map|].
    apply String.eqb_refl.
Qed.

Lemma isAuthorized_names names m a w :
  result (isAuthorized (E:=Exception) (map ParamName names) m a w) = Ok true
  <-> exists rp, In rp (rolePermissions w)
                 /\ In (role_name (rp_role rp)) names
                 /\ method (rp_permission rp) = m
                 /\ action (rp_permission rp) = a.
Proof.
  unfold isAuthorized. destruct names as [|n names]; simpl.
  - split; [discriminate|]. intros (rp & _ & [] & _).
  - unfold rolePermissionExists. unfold_monad. simpl.
    split.
    + intros [= H]. apply existsb_exists in H as (rp & Hin & H).
      apply andb_true_iff in H as [H Ha]. apply andb_true_iff in H as [Hn Hm].
      apply String.eqb_eq in Ha, Hm.
      apply (nameIn_names _ (n :: names)) in Hn. by exists rp.
    + intros (rp & Hin & Hn & Hm & Ha). f_equal.
      apply existsb_exists. exists rp. split; [done|].
      apply (nameIn_names _ (n :: names)) in Hn. simpl in Hn.
      rewrite Hn, Hm, Ha, !String.eqb_refl. done.
Qed.

(** X5: called with role names, isAuthorized answers true exactly when some
    grant joins one of the names to a permission with that method and
    action; so the answer for a list of names is the disjunction of the
    answers for its parts, and one sufficient role is enough. *)
Theorem isAuthorized_union names1 names2 m a w :
  (result (isAuthorized (E:=Exception) (map ParamName names1) m a w) = Ok true
   <-> exists rp, In rp (rolePermissions w)
                  /\ In (role_name (rp_role rp)) names1
                  /\ method (rp_permission rp) = m
                  /\ action (rp_permission rp) = a)
  /\ (result (isAuthorized (E:=Exception)
                (map ParamName (names1 ++ names2)) m a w) = Ok true
      <-> result (isAuthorized (E:=Exception) (map ParamName names1) m a w)
          = Ok true
          \/ result (isAuthorized (E:=Exception) (map ParamName names2) m a w)
             = Ok true).
Proof.
  split; [apply isAuthorized_names|].
  rewrite !isAuthorized_names. split.
  - intros (rp & Hin & Hn & Hm & Ha). apply in_app_or in Hn as [Hn|Hn];
      [left|right]; by exists rp.
  - intros [(rp & Hin & Hn & Hm & Ha)|(rp & Hin & Hn & Hm & Ha)];
      exists rp; (split; [done|]); (split; [|done]); apply in_or_app; auto.
Qed.

(** ** Login *)

Lemma login_unfold cfg vp e password now w :
  login cfg vp e password now w =
  match List.find (fun u => String.eqb (email u) e) (users w) with
  | Some u =>
      if isActive u && vp u password
      then (Ok (u, generateAccessToken cfg u now,
                generateRefreshToken cfg u now), w, [])
      else (Throw InvalidCredentials, w, [])
  | None => (Throw InvalidCredentials, w, [])
  end.
Proof.
  unfold login, validateUser, findUserByEmail. unfold_monad.
  destruct (List.find _ _) as [u|]; [|reflexivity].
  destruct (isActive u); simpl; [|reflexivity].
  destruct (vp u password); reflexivity.
Qed.

(** X6: a successful login names a stored, active account with that address
    whose password validates, changes no store, and hands out tokens that
    work: until it expires the access token verifies with the user's pid as
    subject, and the refresh token is exchanged for a new pair. *)
Theorem login_issues_valid_tokens cfg vp e password now w u a r :
  List.NoDup (map pid (users w)) ->
  result (login cfg vp e password now w) = Ok (u, a, r) ->
  In u (users w) /\ email u = e /\ isActive u = true
  /\ vp u password = true
  /\ world (login cfg vp e password now w) = w
  /\ (forall later, later < now + accessTokenExpiry cfg -> ~ revoked w a ->
        exists c, result (validateToken cfg a access later w) = Ok c
                  /\ sub c = pid u)
  /\ (forall later, later < now + refreshTokenExpiry cfg -> ~ revoked w r ->
        exists p, result (refreshAccessToken cfg r later w) = Ok (Some p)).
Proof.
  intros Hnd. rewrite login_unfold.
  destruct (List.find _ _) as [u0|] eqn:Hf; [|discriminate].
  destruct (isActive u0) eqn:Hact; simpl; [|discriminate].
  destruct (vp u0 password) eqn:Hpw; simpl; [|discriminate].
  intros [= <- <- <-].
  apply find_some in Hf as [Hin He]. apply String.eqb_eq in He.
  pose proof (principal_of_member w u0 Hnd Hin) as Hp.
  split; [done|]. split; [done|]. split; [done|]. split; [done|].
  split; [done|]. split.
  - intros later Hlt Hrev.
    destruct (access_token_window cfg w u0 now later Hp Hact Hrev Hlt)
      as (c & Hc & Hs & _).
    by exists c.
  - intros later Hlt Hrev. eexists.
    by apply refresh_token_window.
Qed.

Lemma login_issues_valid_tokens_witness :
  exists c,
    result (validateToken Scenario.cfg Scenario.accessToken access 1060
                          Scenario.world0) = Ok c
    /\ sub c = "9b2f".
Proof.
  assert (Hnd : List.NoDup (map pid (users Scenario.world0))) by nodup.
  assert (Hnil : ~ revoked Scenario.world0 Scenario.accessToken)
    by (intros (row & [] & _)).
  destruct (login_issues_valid_tokens Scenario.cfg Examples.validatePassword
              "alice@example.com" "correct horse" 1000 Scenario.world0
              Scenario.alice Scenario.accessToken Scenario.refreshToken
              Hnd eq_refl) as (_ & _ & _ & _ & _ & H & _).
  apply (H 1060); [reflexivity|exact Hnil].
Defined.

(** ** Saving a user *)

Lemma find_saveUser p u u' l :
  List.find (fun x => String.eqb (pid x) p) l = Some u ->
  pid u' = pid u -> user_id u' = user_id u ->
  List.find (fun x => String.eqb (pid x) p)
            (map (fun x => if user_id x =? user_id u' then u' else x) l)
  = Some u'.
Proof.
  intros Hf Hpid Hid.
  assert (Hp : pid u = p).
  { apply find_some in Hf as [_ H]. by apply String.eqb_eq in H. }
  induction l as [|x l IH]; simpl in *; [done|].
  destruct (Z.eqb_spec (user_id x) (user_id u')) as [Hx|Hx].
  - by rewrite Hpid, Hp, String.eqb_refl.
  - destruct (String.eqb (pid x) p) eqn:Hpx.
    + injection Hf as ->. congruence.
    + by apply IH.
Qed.

Lemma saveUser_absent (u' : User) l :
  ~ In (user_id u') (map user_id l) ->
  map (fun x => if user_id x =? user_id u' then u' else x) l = l.
Proof.
  induction l as [|x l IH]; simpl; [done|]. intros Hn.
  destruct (Z.eqb_spec (user_id x) (user_id u')) as [Hx|Hx].
  - exfalso. apply Hn. by left.
  - f_equal. apply IH. intros H. apply Hn. by right.
Qed.

(** With unique keys, saving [u'] over [u] leaves every other principal. *)
Lemma find_saveUser_other p u u' l :
  List.NoDup (map user_id l) -> In u l ->
  pid u' = pid u -> user_id u' = user_id u -> p <> pid u ->
  List.find (fun x => String.eqb (pid x) p)
            (map (fun x => if user_id x =? user_id u' then u' else x) l)
  = List.find (fun x => String.eqb (pid x) p) l.
Proof.
  intros Hnd Hin Hpid Hid Hp.
  induction l as [|x l IH]; simpl; [done|].
  inversion Hnd as [|? ? Hx Hl]; subst.
  destruct (Z.eqb_spec (user_id x) (user_id u')) as [Hxu|Hxu].
  - assert (x = u) as ->.
    { destruct Hin as [->|Hin]; [done|]. exfalso. apply Hx.
      rewrite Hxu, Hid. by apply in_map. }
    rewrite Hpid.
    assert (String.eqb (pid u) p = false) as ->.
    { apply String.eqb_neq. congruence. }
    rewrite saveUser_absent; [done|]. by rewrite Hid.
  - destruct (String.eqb (pid x) p); [done|].
    destruct Hin as [->|Hin]; [congruence|]. by apply IH.
Qed.

(** ** Deactivation *)

Lemma deactivateUser_unfold {E} roleTable userId w :
  @deactivateUser E roleTable userId w =
  match principal w userId with
  | None => (Ok false, w, [])
  | Some u =>
      if negb (isActive u) then (Ok false, w, []) else
      if holdsRole (List.find (fun r => String.eqb (role_name r) "ADMIN")
                              roleTable) u
      then (Ok false, w, [])
      else (Ok true,
            setUsers (map (fun x => if user_id x =? user_id u
                                    then setActive false u else x)
                          (users w)) w, [])
  end.
Proof.
  unfold deactivateUser, saveUser, principal. unfold_monad.
  destruct (List.find _ (users w)) as [u|]; [|reflexivity].
  destruct (negb (isActive u)); [reflexivity|].
  destruct (holdsRole _ u); reflexivity.
Qed.

(** X7: for a stored user, deactivateUser answers false without changing
    anything, and it answers false for a user who is already inactive and
    for a user who holds a role with the key of the role named ADMIN; it
    answers true for an active user who holds no such role, and when it
    answers true the user was active and is stored inactive afterwards. *)
Theorem deactivateUser_protects_admin {E} roleTable userId w u :
  principal w userId = Some u ->
  (result (@deactivateUser E roleTable userId w) = Ok false ->
   world (@deactivateUser E roleTable userId w) = w)
  /\ (forall adminRole role,
        List.find (fun r => String.eqb (role_name r) "ADMIN") roleTable
        = Some adminRole ->
        In role (roles u) -> role_id role = role_id adminRole ->
        result (@deactivateUser E roleTable userId w) = Ok false)
  /\ (isActive u = false ->
      result (@deactivateUser E roleTable userId w) = Ok false)
  /\ (isActive u = true ->
      (forall adminRole role,
         List.find (fun r => String.eqb (role_name r) "ADMIN") roleTable
         = Some adminRole ->
         In role (roles u) -> role_id role <> role_id adminRole) ->
      result (@deactivateUser E roleTable userId w) = Ok true)
  /\ (result (@deactivateUser E roleTable userId w) = Ok true ->
      isActive u = true
      /\ principal (world (@deactivateUser E roleTable userId w)) userId
         = Some (setActive false u)).
Proof.
  intros Hu. rewrite deactivateUser_unfold, Hu.
  destruct (isActive u) eqn:Hact; simpl.
  2:{ split; [done|]. split; [done|]. split; [done|].
      split; [discriminate|discriminate]. }
  destruct (holdsRole _ u) eqn:Hadm.
  - split; [done|]. split; [done|]. split; [discriminate|].
    split; [|discriminate]. intros _ Hnone. exfalso.
    unfold holdsRole in Hadm.
    destruct (List.find _ roleTable) as [adminRole|]; [|discriminate].
    apply existsb_exists in Hadm as (role & Hin & Hid).
    apply (Hnone adminRole role eq_refl Hin). lia.
  - split; [discriminate|]. split.
    { intros adminRole role Hfind Hin Hid. exfalso.
      unfold holdsRole in Hadm. rewrite Hfind in Hadm.
      assert (existsb (fun role => role_id role =? role_id adminRole)
                      (roles u) = true) as Hex; [|congruence].
      apply existsb_exists. exists role. split; [done|]. lia. }
    split; [discriminate|]. split; [done|].
    intros _. split; [done|].
    unfold principal, world; simpl.
    by apply (find_saveUser userId u (setActive false u)).
Qed.

Lemma deactivateUser_protects_admin_witness :
  result (deactivateUser (E:=Exception) Examples.roleTable
            "123e4567-e89b-12d3-a456-426614174001"
            Examples.worldWithDave) = Ok false
  /\ result (deactivateUser (E:=Exception) Examples.roleTable
               "123e4567-e89b-12d3-a456-426614174000"
               Examples.worldWithDave) = Ok true.
Proof.
  split.
  - destruct (deactivateUser_protects_admin (E:=Exception)
                Examples.roleTable "123e4567-e89b-12d3-a456-426614174001"
                Examples.worldWithDave Examples.erin eq_refl)
      as (_ & H & _).
    apply (H Scenario.ADMIN Scenario.ADMIN eq_refl); [by left|reflexivity].
  - destruct (deactivateUser_protects_admin (E:=Exception)
                Examples.roleTable "123e4567-e89b-12d3-a456-426614174000"
                Examples.worldWithDave Examples.dave eq_refl)
      as (_ & _ & _ & H & _).
    apply H; [reflexivity|]. intros adminRole role _ [].
Defined.

(** X8: once deactivateUser has answered true, no access token whose
    subject is that user verifies and no refresh token of that user is
    exchanged, at any time; permissions, grants, blacklist and cache are
    untouched, and with unique user keys so is every other principal. *)
Theorem deactivation_ends_sessions {E} cfg roleTable userId w :
  result (@deactivateUser E roleTable userId w) = Ok true ->
  (forall tok c now,
     jwt_decode tok = Some c -> sub c = userId ->
     (exists cause,
        result (validateToken cfg tok access now
                  (world (@deactivateUser E roleTable userId w)))
        = Throw (InvalidToken cause))
     /\ result (refreshAccessToken cfg tok now
                  (world (@deactivateUser E roleTable userId w))) = Ok None)
  /\ permissions (world (@deactivateUser E roleTable userId w))
     = permissions w
  /\ rolePermissions (world (@deactivateUser E roleTable userId w))
     = rolePermissions w
  /\ tokenBlacklist (world (@deactivateUser E roleTable userId w))
     = tokenBlacklist w
  /\ cache (world (@deactivateUser E roleTable userId w)) = cache w
  /\ (List.NoDup (map user_id (users w)) ->
      forall p, p <> userId ->
                principal (world (@deactivateUser E roleTable userId w)) p
                = principal w p).
Proof.
  rewrite deactivateUser_unfold.
  destruct (principal w userId) as [u|] eqn:Hu; [|discriminate].
  destruct (negb (isActive u)); [discriminate|].
  destruct (holdsRole _ u); [discriminate|].
  intros _. unfold world; simpl.
  set (w' := setUsers _ w).
  assert (Hu' : principal w' userId = Some (setActive false u)).
  { unfold principal, w'; simpl.
    by apply (find_saveUser userId u (setActive false u)). }
  split.
  { intros tok c now Hd Hs. split.
    - rewrite validateToken_unfold.
      destruct (blacklisted w' tok); [eauto|].
      destruct (jwt_verify tok (secret cfg) now) as [e|d] eqn:Hv; [eauto|].
      apply verify_decode in Hv. assert (d = c) as -> by congruence.
      destruct (negb _); [eauto|]. unfold result; simpl.
      rewrite Hs, Hu'. simpl. eauto.
    - rewrite refreshAccessToken_unfold, validateToken_unfold.
      destruct (blacklisted w' tok); [done|].
      destruct (jwt_verify tok (secret cfg) now) as [e|d] eqn:Hv; [done|].
      apply verify_decode in Hv. assert (d = c) as -> by congruence.
      destruct (negb _); [done|]. unfold result; simpl.
      by rewrite Hs, Hu'. }
  split; [done|]. split; [done|]. split; [done|]. split; [done|].
  intros Hnd p Hp. unfold principal, w'; simpl.
  pose proof Hu as Hf. apply find_some in Hf as [Hin Hpid].
  apply String.eqb_eq in Hpid.
  apply (find_saveUser_other p u (setActive false u)); try done.
  congruence.
Qed.

Lemma deactivation_ends_sessions_witness :
  (exists cause,
     result (validateToken Scenario.cfg Examples.carolToken access 1060
               (world (deactivateUser (E:=Exception) Examples.roleTable
                                      "c4r0" Examples.world1)))
     = Throw (InvalidToken cause))
  /\ principal (world (deactivateUser (E:=Exception) Examples.roleTable
                                      "c4r0" Examples.world1)) "9b2f"
     = Some Scenario.alice.
Proof.
  destruct (deactivation_ends_sessions (E:=Exception) Scenario.cfg
              Examples.roleTable "c4r0" Examples.world1 eq_refl)
    as (Htok & _ & _ & _ & _ & Hothers).
  split.
  - destruct (Htok Examples.carolToken _ 1060 eq_refl eq_refl) as [H _].
    exact H.
  - rewrite Hothers; [reflexivity|nodup|discriminate].
Defined.

(** ** The permission catalog *)

(** X9: a lookup repeated on the store its first call left is answered from
    the cache: it makes no call to the permission repository, changes
    nothing more, and returns the action the first call returned, or null
    where the first call returned null. *)
Theorem getAction_second_call_is_cached m r w :
  let first := getAction (E:=Exception) m r w in
  let second := getAction (E:=Exception) m r (world first) in
  events second = []
  /\ world second = world first
  /\ (forall a, result first = Ok (Some a) -> result second = Ok (orNull a))
  /\ (result first = Ok None -> result second = Ok None).
Proof.
  intros first second. subst first second.
  destruct (cache w !! cacheKey m r) as [c|] eqn:Hc.
  - rewrite (getAction_hit w m r c Hc).
    change (world (Ok (orNull c), w, @nil Event)) with w.
    rewrite (getAction_hit w m r c Hc).
    unfold result, world, events; simpl. split; [done|]. split; [done|].
    split.
    + intros a [= Ha]. unfold orNull in *. destruct (Js.truthy c) eqn:Ht;
        [|discriminate]. injection Ha as <-. by rewrite Ht.
    + done.
  - rewrite (getAction_miss w m r Hc).
    destruct (resolve (permissions w) m r) as [p|].
    + match goal with
      | |- context [getAction m r (world (?x, ?w1, ?ev))] =>
          change (world (x, w1, ev)) with w1;
          rewrite (getAction_hit w1 m r (action p))
            by apply lookup_insert_eq
      end.
      unfold result, world, events; simpl. split; [done|]. split; [done|].
      split; [by intros a [= <-]|discriminate].
    + match goal with
      | |- context [getAction m r (world (?x, ?w1, ?ev))] =>
          change (world (x, w1, ev)) with w1;
          rewrite (getAction_hit w1 m r "") by apply lookup_insert_eq
      end.
      unfold result, world, events; simpl. split; [done|]. split; [done|].
      split; [discriminate|done].
Qed.


Lemma matchesRoutePattern_segments a a' p p' :
  segments a = segments a' -> segments p = segments p' ->
  matchesRoutePattern a p = matchesRoutePattern a' p'.
Proof.
  intros Ha Hp.
  pose proof (matchesRoutePattern_spec a p) as H1.
  pose proof (matchesRoutePattern_spec a' p') as H2.
  rewrite Ha, Hp in H1.
  destruct (matchesRoutePattern a p), (matchesRoutePattern a' p'); try done.
  - symmetry. apply H2, H1. done.
  - apply H1, H2. done.
Qed.

Lemma split_snoc c s :
  Js.split c (s +:+ String c "") = Js.split c s ++ [""].
Proof.
  induction s as [|d s IH]; simpl.
  - by rewrite Ascii.eqb_refl.
  - destruct (Ascii.eqb d c); [by rewrite IH|].
    rewrite IH. destruct (Js.split c s) eqn:Hs; [|reflexivity].
    pose proof (split_length c s) as Hl. rewrite Hs in Hl. discriminate.
Qed.

Lemma segments_leading_slash r : segments ("/" +:+ r) = segments r.
Proof. reflexivity. Qed.

Lemma segments_trailing_slash r : segments (r +:+ "/") = segments r.
Proof.
  unfold segments, Js.filterBoolean.
  rewrite split_snoc, List.filter_app. simpl. by rewrite app_nil_r.
Qed.

(** X11: matchesRoutePattern ignores a leading and a trailing slash of the
    route and of the pattern, and every route matches itself. *)
Theorem matching_ignores_outer_slashes path pattern :
  matchesRoutePattern ("/" +:+ path) pattern
  = matchesRoutePattern path pattern
  /\ matchesRoutePattern (path +:+ "/") pattern
     = matchesRoutePattern path pattern
  /\ matchesRoutePattern path ("/" +:+ pattern)
     = matchesRoutePattern path pattern
  /\ matchesRoutePattern path (pattern +:+ "/")
     = matchesRoutePattern path pattern
  /\ matchesRoutePattern path path = true.
Proof.
  repeat split;
    try (apply matchesRoutePattern_segments;
         auto using segments_leading_slash, segments_trailing_slash).
  apply matchesRoutePattern_spec, Forall2_segmentAgrees_refl.
Qed.

(** X10: on a cache miss getAction is sound and complete for the stored
    permissions: an action it returns is the action of a stored permission
    of that method whose route matches the requested one, it returns an
    action whenever such a permission exists, and when it returns null no
    stored permission of the method matches and the miss is cached. *)
Theorem getAction_sound_and_complete m r w :
  cache w !! cacheKey m r = None ->
  (forall a, result (getAction (E:=Exception) m r w) = Ok (Some a) ->
     exists p, In p (permissions w) /\ method p = m /\ action p = a
               /\ matchesRoutePattern r (route p) = true)
  /\ (forall p, In p (permissions w) -> method p = m ->
                matchesRoutePattern r (route p) = true ->
                exists a, result (getAction (E:=Exception) m r w)
                          = Ok (Some a))
  /\ (result (getAction (E:=Exception) m r w) = Ok None ->
      cache (world (getAction (E:=Exception) m r w)) !! cacheKey m r
      = Some ""
      /\ forall p, In p (permissions w) -> method p = m ->
                   matchesRoutePattern r (route p) = false).
Proof.
  intros Hmiss. rewrite (getAction_miss w m r Hmiss). unfold resolve.
  destruct (List.find (fun p => String.eqb (method p) m
                               && String.eqb (route p) r) (permissions w))
    as [p|] eqn:Hex.
  - unfold result, world; simpl. apply find_some in Hex as [Hin Hp].
    apply andb_true_iff in Hp as [Hm Hr]. apply String.eqb_eq in Hm, Hr.
    split; [|split; [by eexists|discriminate]].
    intros a [= <-]. exists p. repeat split; try done.
    subst. apply matchesRoutePattern_spec, Forall2_segmentAgrees_refl.
  - destruct (List.find (fun p => String.eqb (method p) m
                                 && matchesRoutePattern r (route p))
                        (permissions w)) as [p|] eqn:Hpat;
      unfold result, world; simpl.
    + apply find_some in Hpat as [Hin Hp].
      apply andb_true_iff in Hp as [Hm Hr]. apply String.eqb_eq in Hm.
      split; [|split; [by eexists|discriminate]].
      intros a [= <-]. by exists p.
    + split; [discriminate|]. split.
      * intros p Hin Hm Hr. eapply find_none in Hpat; [|exact Hin].
        simpl in Hpat. rewrite Hm, String.eqb_refl, Hr in Hpat. discriminate.
      * intros _. split; [apply lookup_insert_eq|].
        intros p Hin Hm. eapply find_none in Hpat; [|exact Hin].
        simpl in Hpat. rewrite Hm, String.eqb_refl in Hpat. exact Hpat.
Qed.

Lemma getAction_sound_and_complete_witness :
  exists a, result (getAction (E:=Exception) "GET" "/users/"
                              Scenario.world0) = Ok (Some a).
Proof.
  destruct (getAction_sound_and_complete "GET" "/users/" Scenario.world0
              eq_refl) as (_ & H & _).
  apply (H Scenario.usersList); [by left|reflexivity|reflexivity].
Defined.

(** X12: findOrCreatePermission is idempotent: it returns a stored
    permission with exactly the requested method, route and action, a
    second call returns the same permission and stores nothing, and the
    number of stored permissions with that triple only ever goes from zero
    to one. *)
Theorem findOrCreatePermission_idempotent m r a w :
  let first := findOrCreatePermission (E:=Exception) m r a w in
  let second := findOrCreatePermission (E:=Exception) m r a (world first) in
  world second = world first
  /\ result second = result first
  /\ (exists p, result first = Ok p /\ sameTriple m r a p = true
                /\ In p (permissions (world first)))
  /\ length (List.filter (sameTriple m r a) (permissions (world first)))
     = Nat.max 1 (length (List.filter (sameTriple m r a) (permissions w))).
Proof.
  intros first second. subst first second.
  unfold findOrCreatePermission, findOneByTriple, savePermission.
  unfold_monad. simpl. fold (sameTriple m r a).
  destruct (List.find (sameTriple m r a) (permissions w)) as [p|] eqn:Hf;
    simpl.
  - rewrite Hf. simpl. split; [done|]. split; [done|]. split.
    + apply find_some in Hf as [Hin Hp]. by exists p.
    + apply find_some_filter in Hf. lia.
  - set (new := {| method := m; route := r; action := a |}).
    assert (Hnew : sameTriple m r a new = true).
    { unfold sameTriple, new. simpl. by rewrite !String.eqb_refl. }
    rewrite (find_app_new _ _ new Hf Hnew). simpl.
    split; [done|]. split; [done|]. split.
    + exists new. split; [done|]. split; [done|]. apply in_or_app. right.
      by left.
    + rewrite List.filter_app, (find_none_filter _ _ Hf). simpl.
      by rewrite Hnew.
Qed.

(** X13: createPermission refuses a triple that is already stored, with the
    error the controller answers 409 for and without any change; in
    particular it cannot succeed twice in a row for the same triple. *)
Theorem createPermission_conflict m r a w :
  (forall p, In p (permissions w) -> sameTriple m r a p = true ->
     result (createPermission m r a w) = Throw PermissionAlreadyExists
     /\ world (createPermission m r a w) = w)
  /\ status PermissionAlreadyExists = 409
  /\ (forall p, result (createPermission m r a w) = Ok p ->
       result (createPermission m r a (world (createPermission m r a w)))
       = Throw PermissionAlreadyExists
       /\ world (createPermission m r a (world (createPermission m r a w)))
          = world (createPermission m r a w)).
Proof.
  split; [|split; [done|]].
  - intros p Hin Hp.
    unfold createPermission, findOneByTriple. unfold_monad. simpl.
    fold (sameTriple m r a).
    destruct (List.find (sameTriple m r a) (permissions w)) eqn:Hf; [done|].
    exfalso. eapply find_none in Hf; [|exact Hin]. congruence.
  - intros p. unfold createPermission, findOneByTriple, savePermission.
    unfold_monad. simpl. fold (sameTriple m r a).
    destruct (List.find (sameTriple m r a) (permissions w)) eqn:Hf; simpl;
      [discriminate|].
    destruct (actionMalformed a); simpl; [discriminate|].
    intros _.
    set (new := {| method := m; route := r; action := a |}).
    assert (Hnew : sameTriple m r a new = true).
    { unfold sameTriple, new. simpl. by rewrite !String.eqb_refl. }
    rewrite (find_app_new _ _ new Hf Hnew). simpl. done.
Qed.


(** ** The API version prefix *)

Lemma stripPrefix_app p s : stripPrefix p (p +:+ s) = Some s.
Proof.
  induction p as [|c p IH]; simpl; [by destruct s|].
  by rewrite Ascii.eqb_refl.
Qed.

Lemma dropDigits_app d rest :
  allDigits d = true -> dropDigits (d +:+ String "/" rest) = String "/" rest.
Proof.
  induction d as [|c d IH]; simpl; [done|].
  intros H. apply andb_true_iff in H as [Hc Hd]. rewrite Hc. by apply IH.
Qed.

Lemma matchApiVersion_versioned d rest :
  d <> "" -> allDigits d = true ->
  matchApiVersion ("/api/v" +:+ d +:+ "/" +:+ rest) = Some rest.
Proof.
  intros Hne Hd. unfold matchApiVersion.
  rewrite (stripPrefix_app "/api/v").
  destruct d as [|c d]; [done|]. simpl in Hd.
  apply andb_true_iff in Hd as [Hc Hd].
  change (String c d +:+ "/" +:+ rest) with (String c (d +:+ String "/" rest)).
  cbv iota. rewrite Hc.
  change (dropDigits (String c (d +:+ String "/" rest)))
    with (if Js.isDigit c then dropDigits (d +:+ String "/" rest)
          else String c (d +:+ String "/" rest)).
  by rewrite Hc, dropDigits_app.
Qed.

Lemma stripPrefix_inv p s t : stripPrefix p s = Some t -> s = p +:+ t.
Proof.
  revert s. induction p as [|a p IH]; intros s; simpl.
  - by intros [= ->].
  - destruct s as [|b s]; [discriminate|].
    destruct (Ascii.eqb_spec a b) as [->|]; [|discriminate].
    intros H. by rewrite (IH _ H).
Qed.

Lemma dropDigits_inv s c rest :
  Js.isDigit c = false ->
  dropDigits s = String c rest ->
  exists d, allDigits d = true /\ s = d +:+ String c rest.
Proof.
  intros Hc. induction s as [|x s IH]; simpl; [discriminate|].
  destruct (Js.isDigit x) eqn:Hx.
  - intros H. destruct (IH H) as (d & Hd & ->).
    exists (String x d). simpl. by rewrite Hx, Hd.
  - intros [= -> ->]. by exists "".
Qed.

Lemma stripApiVersion_inv r rest :
  matchApiVersion r = Some rest ->
  exists d, d <> "" /\ allDigits d = true
            /\ r = "/api/v" +:+ d +:+ "/" +:+ rest.
Proof.
  intros Hm. unfold matchApiVersion in Hm.
  destruct (stripPrefix "/api/v" r) as [t|] eqn:Hp; [|discriminate].
  apply stripPrefix_inv in Hp. subst r.
  destruct t as [|c t]; [discriminate|].
  destruct (Js.isDigit c) eqn:Hc; [|discriminate].
  destruct (dropDigits (String c t)) as [|x y] eqn:Hd; [discriminate|].
  destruct (Ascii.eqb_spec x "/") as [->|Hx].
  - injection Hm as ->.
    destruct (dropDigits_inv (String c t) "/" rest eq_refl Hd)
      as (d & Hdig & Heq).
    exists d. split.
    { intros ->. simpl in Heq. injection Heq as -> _. discriminate. }
    split; [done|]. by rewrite Heq.
  - exfalso. destruct x as [b0 b1 b2 b3 b4 b5 b6 b7].
    destruct b0, b1, b2, b3, b4, b5, b6, b7; try discriminate Hm.
    by apply Hx.
Qed.

(** X14: stripApiVersion and normalizeRouteForStorage replace a leading
    /api/v<digits>/ by a single slash, whatever follows, and leave every
    other route as it is: a route is changed only if it has that form. *)
Theorem stripApiVersion_characterised r :
  (forall d rest,
     d <> "" -> allDigits d = true ->
     r = "/api/v" +:+ d +:+ "/" +:+ rest ->
     stripApiVersion r = "/" +:+ rest
     /\ normalizeRouteForStorage r = "/" +:+ rest)
  /\ normalizeRouteForStorage r = stripApiVersion r
  /\ (stripApiVersion r = r
      \/ exists d rest, d <> "" /\ allDigits d = true
                        /\ r = "/api/v" +:+ d +:+ "/" +:+ rest
                        /\ stripApiVersion r = "/" +:+ rest).
Proof.
  split; [|split; [reflexivity|]].
  - intros d rest Hne Hd ->.
    unfold stripApiVersion, normalizeRouteForStorage.
    by rewrite matchApiVersion_versioned.
  - unfold stripApiVersion.
    destruct (matchApiVersion r) as [rest|] eqn:Hm; [right|by left].
    destruct (stripApiVersion_inv r rest Hm) as (d & Hne & Hd & Hr).
    by exists d, rest.
Qed.

Lemma sameTriple_eq m r a p :
  sameTriple m r a p = true -> p = {| method := m; route := r; action := a |}.
Proof.
  unfold sameTriple. intros H. apply andb_true_iff in H as [H Ha].
  apply andb_true_iff in H as [Hm Hr].
  apply String.eqb_eq in Hm, Hr, Ha. destruct p; simpl in *. by subst.
Qed.

(** X15: findOrCreatePermissionInternal stores routes without their API
    version: registering a route under /api/v<d1>/ stores (or finds) the
    permission with the route after the prefix, and registering the same
    route under another version afterwards returns that permission and
    changes nothing. *)
Theorem internal_registration_is_version_stable m d1 d2 rest a w p :
  d1 <> "" -> allDigits d1 = true -> d2 <> "" -> allDigits d2 = true ->
  result (findOrCreatePermissionInternal m ("/api/v" +:+ d1 +:+ "/" +:+ rest)
            a w) = Ok p ->
  p = {| method := m; route := "/" +:+ rest; action := a |}
  /\ In p (permissions (world (findOrCreatePermissionInternal m
                                 ("/api/v" +:+ d1 +:+ "/" +:+ rest) a w)))
  /\ result (findOrCreatePermissionInternal m
               ("/api/v" +:+ d2 +:+ "/" +:+ rest) a
               (world (findOrCreatePermissionInternal m
                         ("/api/v" +:+ d1 +:+ "/" +:+ rest) a w))) = Ok p
  /\ world (findOrCreatePermissionInternal m
              ("/api/v" +:+ d2 +:+ "/" +:+ rest) a
              (world (findOrCreatePermissionInternal m
                        ("/api/v" +:+ d1 +:+ "/" +:+ rest) a w)))
     = world (findOrCreatePermissionInternal m
                ("/api/v" +:+ d1 +:+ "/" +:+ rest) a w).
Proof.
  intros Hn1 Hd1 Hn2 Hd2.
  unfold findOrCreatePermissionInternal.
  unfold normalizeRouteForStorage.
  rewrite (matchApiVersion_versioned d1 rest Hn1 Hd1).
  rewrite (matchApiVersion_versioned d2 rest Hn2 Hd2).
  unfold findOneByTriple, savePermission. unfold_monad. simpl.
  fold (sameTriple m ("/" +:+ rest) a).
  destruct (List.find (sameTriple m ("/" +:+ rest) a) (permissions w))
    as [q|] eqn:Hf; simpl.
  - intros [= ->]. rewrite Hf. simpl.
    apply find_some in Hf as [Hin Hq]. apply sameTriple_eq in Hq. done.
  - destruct (actionMalformed a); simpl; [discriminate|].
    intros [= <-].
    set (new := {| method := m; route := "/" +:+ rest; action := a |}).
    assert (Hnew : sameTriple m ("/" +:+ rest) a new = true).
    { unfold sameTriple, new. simpl. by rewrite !String.eqb_refl. }
    rewrite (find_app_new _ _ new Hf Hnew). simpl.
    repeat split. apply in_or_app. right. by left.
Qed.

Lemma internal_registration_is_version_stable_witness :
  result (findOrCreatePermissionInternal "GET" "/api/v2/users" "user:list"
            (world (findOrCreatePermissionInternal "GET" "/api/v1/users"
                      "user:list" Scenario.emptyCatalog)))
  = Ok Scenario.usersList.
Proof.
  assert (H1 : ("1" : string) <> "") by discriminate.
  assert (H2 : ("2" : string) <> "") by discriminate.
  destruct (internal_registration_is_version_stable "GET" "1" "2" "users"
              "user:list" Scenario.emptyCatalog Scenario.usersList
              H1 eq_refl H2 eq_refl eq_refl) as (_ & _ & H & _).
  exact H.
Defined.

(** ** The middlewares *)


(** X16: authenticate never changes a store and fails only with status
    401; without a Bearer header it fails with "No token provided" before
    any collaborator is called; when it succeeds, the header carried a
    token that validateToken accepted as an access token, and the request
    passed on carries exactly the decoded payload as its user. *)
Theorem authenticate_outcomes cfg req now w :
  world (authenticate cfg req now w) = w
  /\ (forall e, result (authenticate cfg req now w) = Throw e -> status e = 401)
  /\ ((authorization req = None
       \/ exists raw, authorization req = Some (OtherScheme raw)) ->
      result (authenticate cfg req now w) = Throw NoTokenProvided
      /\ events (authenticate cfg req now w) = [])
  /\ (forall req', result (authenticate cfg req now w) = Ok req' ->
      exists tok decoded,
        authorization req = Some (Bearer tok)
        /\ result (validateToken cfg tok access now w) = Ok decoded
        /\ req' = setUser decoded req
        /\ req_user req' = Some decoded
        /\ typ decoded = "access").
Proof.
  unfold authenticate.
  destruct (authorization req) as [[tok|raw]|] eqn:Hh.
  - unfold bind.
    pose proof (validateToken_world cfg tok access now w) as Hw.
    pose proof (validateToken_throw_inv cfg tok access now w) as Hthrow.
    pose proof (validateToken_ok_inv cfg tok access now w) as Hok.
    destruct (validateToken cfg tok access now w) as [[[d|e] w1] ev] eqn:Hv;
      unfold world, result in *; simpl in *; subst w1.
    + split; [done|]. split; [discriminate|].
      split; [intros [H|[raw H]]; discriminate|].
      intros req' [= <-]. exists tok, d.
      destruct (Hok d eq_refl) as (_ & _ & Ht & _). by rewrite Hv.
    + split; [done|]. split.
      * intros e' [= <-]. by destruct (Hthrow e eq_refl) as [c ->].
      * split; [intros [H|[raw H]]; discriminate|discriminate].
  - unfold throw, world, result, events; simpl.
    split; [done|]. split; [by intros e [= <-]|].
    split; [done|discriminate].
  - unfold throw, world, result, events; simpl.
    split; [done|]. split; [by intros e [= <-]|].
    split; [done|discriminate].
Qed.


Lemma arrayIncludes_false x l : Js.arrayIncludes x l = false <-> ~ In x l.
Proof.
  rewrite <- arrayIncludes_In. destruct (Js.arrayIncludes x l); split; congruence.
Qed.

Lemma uniqFrom_In seen l x :
  In x (Js.uniqFrom seen l) <-> In x l /\ ~ In x seen.
Proof.
  revert seen. induction l as [|y l IH]; intros seen; simpl; [tauto|].
  destruct (Js.arrayIncludes y seen) eqn:Hy.
  - apply arrayIncludes_In in Hy. rewrite IH. split.
    + intros [H1 H2]. auto.
    + intros [[->|H1] H2]; [contradiction|auto].
  - apply arrayIncludes_false in Hy. simpl. rewrite IH. simpl. split.
    + intros [->|[H1 H2]]; [auto|]. split; [auto|]. intros H. apply H2. auto.
    + intros [[->|H1] H2]; [auto|].
      destruct (String.eqb_spec y x) as [->|Hne]; [auto|].
      right. split; [done|]. intros [H|H]; auto.
Qed.

Lemma uniqFrom_NoDup seen l : List.NoDup (Js.uniqFrom seen l).
Proof.
  revert seen. induction l as [|y l IH]; intros seen; simpl; [constructor|].
  destruct (Js.arrayIncludes y seen); [apply IH|].
  constructor; [|apply IH]. rewrite uniqFrom_In. intros [_ H]. apply H.
  by left.
Qed.

(** X18: the candidates of getPossibleRoutes are without repetition and
    without the empty string, start with the normalized route when that is
    not empty, and each is the normalized route, the request path or the
    route path without API version, or the normalized route without or
    with a leading slash. *)
Theorem getPossibleRoutes_shape req normalizedRoute :
  List.NoDup (getPossibleRoutes req normalizedRoute)
  /\ (forall r, In r (getPossibleRoutes req normalizedRoute) -> r <> "")
  /\ (normalizedRoute <> "" ->
      exists rest, getPossibleRoutes req normalizedRoute
                   = normalizedRoute :: rest)
  /\ (forall r, In r (getPossibleRoutes req normalizedRoute) ->
        r = normalizedRoute
        \/ r = stripApiVersion (req_path req)
        \/ (exists rp, req_routePath req = Some rp /\ r = stripApiVersion rp)
        \/ r = Js.substring1 normalizedRoute
        \/ r = "/" +:+ normalizedRoute).
Proof.
  unfold getPossibleRoutes, Js.uniq.
  set (c1 := Js.truthy (req_path req)).
  set (c3 := Js.truthy normalizedRoute && Js.startsWith "/" normalizedRoute).
  set (c4 := Js.truthy normalizedRoute
             && negb (Js.startsWith "/" normalizedRoute)).
  split; [apply uniqFrom_NoDup|]. split; [|split].
  - intros r Hin. apply uniqFrom_In in Hin as [Hin _].
    apply filter_In in Hin as [_ Ht]. by destruct r.
  - intros Hne.
    assert (Ht : Js.truthy normalizedRoute = true)
      by (by destruct normalizedRoute).
    destruct c1, (req_routePath req) as [rp|], c3, c4;
      try destruct (Js.truthy rp && negb (String.eqb rp (req_path req)));
      simpl; rewrite Ht; simpl; eexists; reflexivity.
  - intros r Hin. apply uniqFrom_In in Hin as [Hin _].
    apply filter_In in Hin as [Hin _].
    destruct c1, (req_routePath req) as [rp|], c3, c4;
      try destruct (Js.truthy rp && negb (String.eqb rp (req_path req)));
      simpl in Hin; intuition eauto 10.
Qed.










Lemma count_app c s1 s2 :
  Js.count c (s1 +:+ s2) = (Js.count c s1 + Js.count c s2)%nat.
Proof. induction s1 as [|d s1 IH]; simpl; [done|]. rewrite IH. lia. Qed.

(** X21: for GET, PUT, PATCH and DELETE the conventional action is the
    first segment of the route (or "unknown"), a colon, and one of six
    operations; it has exactly one colon more than the resource, so it has
    the module:operation shape whenever the first segment has no colon. *)
Theorem convention_shape m r :
  In m ["GET"; "PUT"; "PATCH"; "DELETE"] ->
  exists operation,
    In operation ["list"; "detail"; "profile"; "roles"; "update"; "delete"]
    /\ inferActionFromConvention m r = resourceOf r +:+ ":" +:+ operation
    /\ Js.count ":" (inferActionFromConvention m r)
       = S (Js.count ":" (resourceOf r))
    /\ (Js.count ":" (resourceOf r) = 0%nat ->
        wellFormedAction (inferActionFromConvention m r)).
Proof.
  intros Hm.
  assert (Hshape : exists operation,
             In operation ["list"; "detail"; "profile"; "roles"; "update";
                           "delete"]
             /\ inferActionFromConvention m r
                = resourceOf r +:+ ":" +:+ operation).
  { unfold inferActionFromConvention, resourceOf. fold (segments r).
    destruct Hm as [<-|[<-|[<-|[<-|[]]]]]; simpl (String.eqb _ _); cbv iota.
    - destruct (segments r) as [|s1 [|s2 l]].
      + destruct (Js.includes ":" r); eexists; (split; [|reflexivity]);
          simpl; tauto.
      + destruct (Js.includes ":" r); eexists; (split; [|reflexivity]);
          simpl; tauto.
      + destruct (String.eqb_spec s2 "profile") as [->|];
          [|destruct (String.eqb_spec s2 "roles") as [->|]]; simpl;
          eexists; (split; [|reflexivity]); simpl; tauto.
    - eexists; (split; [|reflexivity]); simpl; tauto.
    - eexists; (split; [|reflexivity]); simpl; tauto.
    - eexists; (split; [|reflexivity]); simpl; tauto. }
  destruct Hshape as (op & Hop & Heq). exists op.
  split; [done|]. split; [done|].
  assert (Hc : Js.count ":" (inferActionFromConvention m r)
               = S (Js.count ":" (resourceOf r))).
  { rewrite Heq, count_app.
    assert (Js.count ":" (":" +:+ op) = 1%nat).
    { simpl in Hop.
      destruct Hop as [<-|[<-|[<-|[<-|[<-|[<-|[]]]]]]]; reflexivity. }
    lia. }
  split; [done|]. intros H0. unfold wellFormedAction. lia.
Qed.

Lemma convention_shape_witness :
  wellFormedAction (inferActionFromConvention "GET" "/users/42").
Proof.
  assert (Hm : In ("GET" : string) ["GET"; "PUT"; "PATCH"; "DELETE"])
    by (by left).
  destruct (convention_shape "GET" "/users/42" Hm) as (op & _ & _ & _ & H).
  apply H. reflexivity.
Defined.

(** ** Usage statistics *)

Lemma bump_usage k a m :
  usage k (bump a m) = usage k m + (if String.eqb a k then 1 else 0).
Proof.
  unfold usage. induction m as [|[k0 n] m IH]; simpl.
  - destruct (String.eqb a k); simpl; lia.
  - destruct (String.eqb_spec k0 a) as [->|Hne]; simpl.
    + destruct (String.eqb a k); simpl; lia.
    + destruct (String.eqb_spec k0 k) as [->|Hk]; simpl.
      * apply String.eqb_neq in Hne. rewrite String.eqb_sym in Hne.
        rewrite Hne. lia.
      * exact IH.
Qed.

Lemma bump_keys a m k :
  In k (map fst (bump a m)) <-> k = a \/ In k (map fst m).
Proof.
  induction m as [|[k0 n] m IH]; simpl.
  - split; [intros [<-|[]]; by left|intros [->|[]]; by left].
  - destruct (String.eqb_spec k0 a) as [->|Hne]; simpl.
    + split; [tauto|]. intros [->|H]; [by left|done].
    + rewrite IH. tauto.
Qed.

Lemma bump_ok a m : usageMapOk m -> usageMapOk (bump a m).
Proof.
  intros [Hnd Hpos]. split.
  - induction m as [|[k0 n] m IH]; simpl.
    + constructor; [intros []|constructor].
    + inversion Hnd as [|? ? Hk Hm]; inversion Hpos; subst.
      destruct (String.eqb_spec k0 a) as [->|Hne]; simpl; [done|].
      constructor; [|by apply IH].
      rewrite bump_keys. intros [->|H]; done.
  - induction Hpos as [|[k0 n] m Hn Hm IH]; simpl.
    + by repeat constructor.
    + inversion Hnd; subst.
      destruct (String.eqb k0 a); constructor; simpl in *; try done;
        [lia|by apply IH].
Qed.

Lemma usage_In k n m :
  usageMapOk m -> In (k, n) m <-> usage k m = n /\ 0 < n.
Proof.
  intros [Hnd Hpos]. unfold usage.
  induction m as [|[k0 n0] m IH]; simpl.
  - split; [done|lia].
  - inversion Hnd as [|? ? Hk Hm]; inversion Hpos as [|? ? Hn0 Hp]; subst.
    simpl in *.
    destruct (String.eqb_spec k0 k) as [->|Hne]; simpl.
    + split.
      * intros [[= <-]|Hin]; [done|]. exfalso. apply Hk.
        by apply (in_map fst) in Hin.
      * intros [-> _]. by left.
    + rewrite <- IH by done. split; [|tauto].
      intros [[= ? ?]|Hin]; [done|done].
Qed.

Lemma fold_bump_ok (l : list RolePermission) m :
  usageMapOk m ->
  usageMapOk (fold_left (fun usageMap rp =>
                           bump (action (rp_permission rp)) usageMap) l m).
Proof.
  revert m. induction l as [|rp l IH]; simpl; [done|].
  intros m Hm. by apply IH, bump_ok.
Qed.

Lemma fold_bump_usage k (l : list RolePermission) m :
  usage k (fold_left (fun usageMap rp =>
                        bump (action (rp_permission rp)) usageMap) l m)
  = usage k m
    + Z.of_nat (length (List.filter
                          (fun rp => String.eqb (action (rp_permission rp)) k)
                          l)).
Proof.
  revert m. induction l as [|rp l IH]; simpl; [lia|].
  intros m. rewrite IH, bump_usage.
  destruct (String.eqb (action (rp_permission rp)) k); simpl length; lia.
Qed.

Lemma insertByCount_perm x l : Permutation (insertByCount x l) (x :: l).
Proof.
  induction l as [|y l IH]; simpl; [done|].
  destruct (snd y <=? snd x); [done|].
  rewrite IH. apply perm_swap.
Qed.

Lemma sortByCount_perm l : Permutation (sortByCount l) l.
Proof.
  unfold sortByCount. induction l as [|x l IH]; simpl; [done|].
  rewrite insertByCount_perm. by constructor.
Qed.

Lemma insertByCount_sorted x l :
  StronglySorted (fun a b => snd b <= snd a) l ->
  StronglySorted (fun a b => snd b <= snd a) (insertByCount x l).
Proof.
  induction 1 as [|y l Hl IH Hy]; simpl.
  - by repeat constructor.
  - destruct (Z.leb_spec (snd y) (snd x)) as [Hle|Hgt].
    + constructor; [by constructor|].
      constructor; [done|].
      eapply List.Forall_impl; [|exact Hy]. simpl. intros; lia.
    + constructor; [done|].
      rewrite List.Forall_forall. intros z Hz.
      apply (Permutation_in _ (insertByCount_perm x l)) in Hz.
      destruct Hz as [<-|Hz]; [lia|].
      rewrite List.Forall_forall in Hy. by apply Hy.
Qed.

Lemma sortByCount_sorted l :
  StronglySorted (fun a b => snd b <= snd a) (sortByCount l).
Proof.
  unfold sortByCount. induction l as [|x l IH]; simpl; [constructor|].
  by apply insertByCount_sorted.
Qed.

(** X22: getPermissionUsageStats returns the histogram of the granted
    actions: one entry per action that is granted at least once, with the
    number of its grants, in descending order of that number; the stores
    are only read. *)
Theorem usage_stats_is_histogram {E} w :
  exists stats,
    @getPermissionUsageStats E w = (Ok stats, w, [])
    /\ List.NoDup (map fst stats)
    /\ (forall a n, In (a, n) stats
                    <-> n = Z.of_nat (grantsOf a w) /\ 0 < n)
    /\ StronglySorted (fun x y => snd y <= snd x) stats.
Proof.
  unfold getPermissionUsageStats. unfold_monad. simpl.
  eexists. split; [reflexivity|].
  set (m := fold_left _ (rolePermissions w) []).
  assert (Hok : usageMapOk m).
  { apply fold_bump_ok. split; constructor. }
  split.
  - eapply Permutation_NoDup; [|apply Hok].
    apply Permutation_map. symmetry. apply sortByCount_perm.
  - split; [|apply sortByCount_sorted].
    intros a n.
    transitivity (In (a, n) m).
    { split; apply Permutation_in;
        [apply sortByCount_perm|symmetry; apply sortByCount_perm]. }
    rewrite (usage_In a n m Hok). unfold m.
    rewrite fold_bump_usage. unfold usage, grantsOf. simpl.
    split; intros [H1 H2]; split; try done; lia.
Qed.

(** ** RoleService *)

Lemma find_none_forall {A} (f : A -> bool) l :
  List.find f l = None -> forall x, In x l -> f x = false.
Proof. intros H x Hin. by apply (List.find_none f l H). Qed.

Lemma createRole_spec newId name description table :
  List.NoDup (map role_name table) ->
  let out := RoleService.createRole newId name description table in
  List.NoDup (map role_name (snd out))
  /\ (In name (map role_name table) ->
      out = (Throw (RoleService.RoleAlreadyExists name), table))
  /\ (~ In name (map role_name table) ->
      exists role, out = (Ok role, table ++ [role])
                   /\ role_id role = newId /\ role_name role = name
                   /\ (forall d, description = Some d ->
                                  role_description role = d)
                   /\ RoleService.findByName name (snd out) = Some role).
Proof.
  intros Hnd. unfold RoleService.createRole.
  destruct (RoleService.findByName name table) as [r|] eqn:Hf; cbv zeta.
  - apply find_some in Hf as [Hin Hn]. apply String.eqb_eq in Hn.
    repeat split; try done.
    intros Hno. exfalso. apply Hno. rewrite <- Hn. by apply in_map.
  - pose proof (find_none_forall _ _ Hf) as Hall.
    assert (Hno : ~ In name (map role_name table)).
    { intros Hin. apply in_map_iff in Hin as (x & Hx & Hin).
      specialize (Hall x Hin). simpl in Hall.
      apply String.eqb_neq in Hall. done. }
    simpl. repeat split.
    + rewrite map_app. simpl. apply List.NoDup_app; [done| |].
      * constructor; [intros []|constructor].
      * intros x Hx [<-|[]]. done.
    + done.
    + intros _. eexists. split; [reflexivity|].
      split; [reflexivity|]. split; [reflexivity|].
      split; [by intros d ->|].
      apply find_app_new; [exact Hf|]. simpl. apply String.eqb_refl.
Qed.

(** [findById] names the relation users, which the entity does not
    declare: the find is refused before any row is read. *)
Lemma findById_refused id table :
  RoleService.findById id table
  = Throw (RoleService.EntityPropertyNotFoundError "users").
Proof. reflexivity. Qed.

(** X23: RoleService keeps role names unique. createRole refuses a name
    that is taken, without change, and otherwise appends one role with that
    name. updateRole renames nothing: its first step is findById, whose
    find names the relation users that the Role entity does not declare,
    so every call fails with EntityPropertyNotFoundError and leaves the
    table as it was, whether the key exists or not and whether the name is
    taken or not. *)
Theorem role_names_stay_unique table :
  List.NoDup (map role_name table) ->
  (forall newId name description,
     List.NoDup (map role_name
                     (snd (RoleService.createRole newId name description
                                                  table)))
     /\ (In name (map role_name table) ->
         RoleService.createRole newId name description table
         = (Throw (RoleService.RoleAlreadyExists name), table))
     /\ (~ In name (map role_name table) ->
         exists role,
           RoleService.createRole newId name description table
           = (Ok role, table ++ [role])
           /\ role_name role = name))
  /\ (forall id name description,
        RoleService.findById id table
        = Throw (RoleService.EntityPropertyNotFoundError "users")
        /\ RoleService.updateRole id name description table
           = (Throw (RoleService.EntityPropertyNotFoundError "users"), table)
        /\ List.NoDup (map role_name
                           (snd (RoleService.updateRole id name description
                                                        table)))).
Proof.
  intros Hnames. split.
  - intros newId name description.
    destruct (createRole_spec newId name description table Hnames)
      as (Hnd & Htaken & Hfree).
    split; [exact Hnd|]. split; [exact Htaken|].
    intros Hno. destruct (Hfree Hno) as (role & Hr & _ & Hn & _).
    by exists role.
  - intros id name description.
    split; [apply findById_refused|].
    unfold RoleService.updateRole. rewrite findById_refused.
    split; [reflexivity|exact Hnames].
Qed.

Lemma role_names_stay_unique_witness :
  RoleService.createRole 3 "ADMIN" None Examples.roleTable
  = (Throw (RoleService.RoleAlreadyExists "ADMIN"), Examples.roleTable)
  /\ RoleService.updateRole 2 "MEMBER" None Examples.roleTable
     = (Throw (RoleService.EntityPropertyNotFoundError "users"),
        Examples.roleTable).
Proof.
  assert (Hnames : List.NoDup (map role_name Examples.roleTable)) by nodup.
  destruct (role_names_stay_unique Examples.roleTable Hnames) as [Hcr Hup].
  split.
  - destruct (Hcr 3 "ADMIN" None) as (_ & H & _). apply H.
    vm_compute. by left.
  - destruct (Hup 2 "MEMBER" None) as (_ & H & _). exact H.
Defined.

(** ** UserRoleService *)

Section UserRoleProperties.

Import UserRoleService.

Lemma assignRole_unfold roleTable userPid roleId w :
  assignRole roleTable userPid roleId w =
  match principal w userPid,
        List.find (fun r => role_id r =? roleId) roleTable with
  | Some u, Some r =>
      match findAssignment u roleId with
      | Some existingAssignment => (Ok existingAssignment, w, [])
      | None =>
          let userRole := {| ur_roleId := roleId; ur_role := Some r |} in
          let u' := setUserRoles (userRoles u ++ [userRole]) u in
          (Ok userRole,
           setUsers (map (fun x => if user_id x =? user_id u' then u' else x)
                         (users w)) w, [])
      end
  | _, _ => (Throw (UserOrRoleNotFound userPid roleId), w, [])
  end.
Proof.
  unfold assignRole, saveUser, principal. unfold_monad.
  destruct (List.find _ (users w)) as [u|]; [|reflexivity].
  destruct (List.find _ roleTable) as [r|]; [|reflexivity].
  destruct (findAssignment u roleId); reflexivity.
Qed.

Lemma removeRole_unfold {E} userPid roleId w :
  @removeRole E userPid roleId w =
  match principal w userPid with
  | None => (Ok false, w, [])
  | Some u =>
      match findAssignment u roleId with
      | None => (Ok false, w, [])
      | Some _ =>
          let u' := setUserRoles (removeAssignment roleId (userRoles u)) u in
          (Ok true,
           setUsers (map (fun x => if user_id x =? user_id u' then u' else x)
                         (users w)) w, [])
      end
  end.
Proof.
  unfold removeRole, saveUser, principal. unfold_monad.
  destruct (List.find _ (users w)) as [u|]; [|reflexivity].
  destruct (findAssignment u roleId); reflexivity.
Qed.

Lemma userHasRole_unfold {E} userPid roleId w :
  @userHasRole E userPid roleId w =
  (Ok (match principal w userPid with
       | Some u => match findAssignment u roleId with
                   | Some _ => true
                   | None => false
                   end
       | None => false
       end), w, []).
Proof.
  unfold userHasRole, principal. unfold_monad.
  destruct (List.find _ (users w)) as [u|]; reflexivity.
Qed.

(** X24: assignRole is idempotent: after a successful call the user has
    the role, and a second call returns the same assignment and changes
    nothing; it fails only for an unknown user or role, without change. *)
Theorem assignRole_idempotent roleTable userPid roleId w :
  (forall e, result (assignRole roleTable userPid roleId w) = Throw e ->
             world (assignRole roleTable userPid roleId w) = w
             /\ (principal w userPid = None
                 \/ List.find (fun r => role_id r =? roleId) roleTable = None))
  /\ (forall userRole,
        result (assignRole roleTable userPid roleId w) = Ok userRole ->
        let w1 := world (assignRole roleTable userPid roleId w) in
        ur_roleId userRole = roleId
        /\ result (@userHasRole AssignError userPid roleId w1) = Ok true
        /\ assignRole roleTable userPid roleId w1 = (Ok userRole, w1, [])).
Proof.
  rewrite assignRole_unfold.
  destruct (principal w userPid) as [u|] eqn:Hu.
  2:{ split; [intros e _; split; [done|by left]|discriminate]. }
  destruct (List.find _ roleTable) as [r|] eqn:Hr.
  2:{ split; [intros e _; split; [done|by right]|discriminate]. }
  destruct (findAssignment u roleId) as [ex|] eqn:Hex.
  - split; [discriminate|]. intros userRole [= <-]. unfold world; simpl.
    split.
    { apply find_some in Hex as [_ H]. lia. }
    rewrite userHasRole_unfold, assignRole_unfold, Hu, Hr, Hex. done.
  - split; [discriminate|]. cbv zeta. intros userRole [= <-].
    unfold world; simpl. split; [done|].
    set (ur := {| ur_roleId := roleId; ur_role := Some r |}).
    set (u' := setUserRoles (userRoles u ++ [ur]) u).
    set (w1 := setUsers _ w).
    assert (Hu' : principal w1 userPid = Some u').
    { unfold principal, w1; simpl. by apply (find_saveUser userPid u u'). }
    assert (Hex' : findAssignment u' roleId = Some ur).
    { unfold findAssignment, u'; simpl. apply find_app_new; [done|].
      simpl. lia. }
    rewrite userHasRole_unfold, assignRole_unfold, Hu', Hr, Hex'. done.
Qed.

Lemma removeAssignment_find roleId l :
  List.NoDup (map ur_roleId l) ->
  List.find (fun ur => ur_roleId ur =? roleId) (removeAssignment roleId l)
  = None.
Proof.
  induction l as [|x l IH]; simpl; [done|]. intros Hnd.
  inversion Hnd as [|? ? Hx Hl]; subst.
  destruct (Z.eqb_spec (ur_roleId x) roleId) as [Heq|Hne].
  - destruct (List.find _ l) as [y|] eqn:Hf; [|done].
    apply find_some in Hf as [Hin Hy]. exfalso. apply Hx.
    apply Z.eqb_eq in Hy. rewrite Heq, <- Hy. by apply in_map.
  - simpl. destruct (Z.eqb_spec (ur_roleId x) roleId); [done|]. by apply IH.
Qed.

Lemma removeAssignment_other roleId other l :
  other <> roleId ->
  List.find (fun ur => ur_roleId ur =? other) (removeAssignment roleId l)
  = List.find (fun ur => ur_roleId ur =? other) l.
Proof.
  intros Hne. induction l as [|x l IH]; simpl; [done|].
  destruct (Z.eqb_spec (ur_roleId x) roleId) as [Heq|Hx]; simpl.
  - destruct (Z.eqb_spec (ur_roleId x) other); [congruence|done].
  - by rewrite IH.
Qed.

(** X25: removeRole answers whether the user had the role and takes
    exactly that role from the user: with one assignment per user and role,
    the user no longer has the role afterwards and has every other role as
    before; when it answers false nothing has changed. *)
Theorem removeRole_removes_only_that_role {E} userPid roleId w u :
  principal w userPid = Some u ->
  List.NoDup (map ur_roleId (userRoles u)) ->
  result (@removeRole E userPid roleId w)
  = result (@userHasRole E userPid roleId w)
  /\ result (@userHasRole E userPid roleId
                          (world (@removeRole E userPid roleId w)))
     = Ok false
  /\ (forall other, other <> roleId ->
        result (@userHasRole E userPid other
                             (world (@removeRole E userPid roleId w)))
        = result (@userHasRole E userPid other w))
  /\ (result (@removeRole E userPid roleId w) = Ok false ->
      world (@removeRole E userPid roleId w) = w).
Proof.
  intros Hu Hnd. rewrite removeRole_unfold, Hu.
  destruct (findAssignment u roleId) as [ex|] eqn:Hex.
  - cbv zeta. unfold world; simpl.
    set (u' := setUserRoles (removeAssignment roleId (userRoles u)) u).
    set (w1 := setUsers _ w).
    assert (Hu' : principal w1 userPid = Some u').
    { unfold principal, w1; simpl. by apply (find_saveUser userPid u u'). }
    split; [by rewrite userHasRole_unfold, Hu, Hex|].
    split.
    { rewrite userHasRole_unfold, Hu'. unfold findAssignment, u'; simpl.
      by rewrite removeAssignment_find. }
    split; [|discriminate].
    intros other Hne. rewrite !userHasRole_unfold, Hu', Hu.
    unfold findAssignment, u'; simpl.
    by rewrite removeAssignment_other.
  - unfold world; simpl.
    split; [by rewrite userHasRole_unfold, Hu, Hex|].
    split; [by rewrite userHasRole_unfold, Hu, Hex|].
    split; [done|done].
Qed.

Lemma removeRole_removes_only_that_role_witness :
  result (UserRoleService.removeRole (E:=Exception) "c4r0" 2
                                     Examples.world1) = Ok true
  /\ result (UserRoleService.userHasRole (E:=Exception) "c4r0" 2
               (world (UserRoleService.removeRole (E:=Exception) "c4r0" 2
                                                  Examples.world1)))
     = Ok false.
Proof.
  assert (Hnd : List.NoDup (map ur_roleId (userRoles Examples.carol)))
    by nodup.
  destruct (removeRole_removes_only_that_role (E:=Exception) "c4r0" 2
              Examples.world1 Examples.carol eq_refl Hnd)
    as (_ & H & _).
  split; [reflexivity|exact H].
Defined.

Lemma areArraysEqual_length a b :
  length a <> length b -> areArraysEqual a b = false.
Proof.
  intros Hne. destruct (areArraysEqual a b) eqn:H; [|done].
  apply areArraysEqual_spec in H as [Hl _]. done.
Qed.

(** X26: a new role assignment invalidates the access tokens the user
    holds: a token of that user that verified before the assignment fails
    afterwards with the role-change cause. *)
Theorem assignRole_invalidates_access_tokens
        cfg roleTable userPid roleId w u userRole tok now c :
  principal w userPid = Some u ->
  findAssignment u roleId = None ->
  result (assignRole roleTable userPid roleId w) = Ok userRole ->
  result (validateToken cfg tok access now w) = Ok c ->
  sub c = userPid ->
  result (validateToken cfg tok access now
                        (world (assignRole roleTable userPid roleId w)))
  = Throw (InvalidToken RolesChanged).
Proof.
  intros Hu Hnone. rewrite assignRole_unfold, Hu.
  destruct (List.find _ roleTable) as [r|]; [|discriminate].
  rewrite Hnone. cbv zeta. intros _ Hok Hsub.
  unfold world; simpl.
  set (ur := {| ur_roleId := roleId; ur_role := Some r |}).
  set (u' := setUserRoles (userRoles u ++ [ur]) u).
  set (w1 := setUsers _ w).
  assert (Hu' : principal w1 userPid = Some u').
  { unfold principal, w1; simpl. by apply (find_saveUser userPid u u'). }
  apply validateToken_ok_inv in Hok as (Hrev & Hv & Ht & Hacc).
  destruct (Hacc eq_refl) as (u0 & rs & Hu0 & Hact & Hrs & Heq).
  rewrite Hsub, Hu in Hu0. injection Hu0 as <-.
  apply blacklisted_false in Hrev.
  rewrite validateToken_unfold.
  change (blacklisted w1 tok) with (blacklisted w tok).
  rewrite Hrev, Hv, Ht. simpl. rewrite Hsub, Hu'. unfold result; simpl.
  unfold roleCheck. change (isActive u') with (isActive u).
  rewrite Hact, Hrs. simpl.
  rewrite areArraysEqual_length; [done|].
  apply areArraysEqual_spec in Heq as [Hlen _].
  unfold roles, u'; simpl. rewrite omap_app, !length_map, length_app. simpl.
  unfold roles in Hlen. rewrite !length_map in Hlen. lia.
Qed.

Lemma assignRole_invalidates_access_tokens_witness :
  result (validateToken Scenario.cfg Examples.carolToken access 1060
            (world (UserRoleService.assignRole Examples.roleTable "c4r0" 1
                                               Examples.world1)))
  = Throw (InvalidToken RolesChanged).
Proof.
  eapply (assignRole_invalidates_access_tokens Scenario.cfg
            Examples.roleTable "c4r0" 1 Examples.world1 Examples.carol);
    reflexivity.
Defined.

End UserRoleProperties.

(** ** InvitationTokenService *)

Section InvitationProperties.

Import InvitationTokenService.

Lemma usedRows_absent saved table :
  ~ In (inv_id saved) (map inv_id table) -> usedRows saved table = table.
Proof.
  unfold usedRows. induction table as [|x l IH]; simpl; [done|]. intros Hn.
  destruct (Z.eqb_spec (inv_id x) (inv_id saved)) as [Hx|Hx].
  - exfalso. apply Hn. by left.
  - f_equal. apply IH. intros H. apply Hn. by right.
Qed.

(** With unique keys, saving the used copy of a stored row replaces that
    row and no other. *)
Lemma usedRows_split usedBy inv table :
  List.NoDup (map inv_id table) -> In inv table ->
  exists before after,
    table = before ++ inv :: after
    /\ usedRows (markUsed usedBy inv) table
       = before ++ markUsed usedBy inv :: after.
Proof.
  induction table as [|x l IH]; simpl; [done|]. intros Hnd Hin.
  inversion Hnd as [|? ? Hx Hl]; subst.
  destruct (Z.eqb_spec (inv_id x) (inv_id inv)) as [Heq|Hne].
  - assert (x = inv) as ->.
    { destruct Hin as [->|Hin]; [done|]. exfalso. apply Hx. rewrite Heq.
      by apply in_map. }
    exists [], l. split; [done|]. simpl. f_equal.
    fold (usedRows (markUsed usedBy inv) l). by apply usedRows_absent.
  - destruct Hin as [->|Hin]; [done|].
    destruct (IH Hl Hin) as (b & a & -> & Hr).
    exists (x :: b), a. split; [done|]. simpl. f_equal. exact Hr.
Qed.

Lemma findUnused_In t table inv :
  findUnused t table = Some inv ->
  In inv table /\ inv_token inv = t /\ inv_used inv = false.
Proof.
  intros H. apply find_some in H as [Hin H].
  apply andb_true_iff in H as [Ht Hu]. apply String.eqb_eq in Ht.
  apply negb_true_iff in Hu. done.
Qed.

Lemma findUnused_none t table :
  (forall i, In i table -> inv_token i = t -> inv_used i = true) ->
  findUnused t table = None.
Proof.
  intros Hall. unfold findUnused.
  induction table as [|x l IH]; simpl; [done|].
  destruct (String.eqb_spec (inv_token x) t) as [Ht|Ht]; simpl.
  - rewrite (Hall x); [|by left|done]. simpl. apply IH.
    intros i Hi. apply Hall. by right.
  - apply IH. intros i Hi. apply Hall. by right.
Qed.

Lemma findUnused_replace t before after (x y : InvitationToken) :
  inv_token x <> t -> inv_token y <> t ->
  findUnused t (before ++ y :: after) = findUnused t (before ++ x :: after).
Proof.
  intros Hx Hy. unfold findUnused.
  induction before as [|z l IH]; simpl.
  - apply String.eqb_neq in Hx, Hy. by rewrite Hx, Hy.
  - by rewrite IH.
Qed.

(** X27: an invitation is accepted once: what useToken accepts was valid
    at that time and is stored used by the given user; afterwards the token
    is neither valid nor usable at any time, keys and tokens of the table
    are as before, and every other token is judged as before. *)
Theorem invitation_is_single_use now t usedBy table saved table' :
  List.NoDup (map inv_id table) ->
  List.NoDup (map inv_token table) ->
  useToken now t usedBy table = (Some saved, table') ->
  inv_token saved = t /\ inv_used saved = true
  /\ inv_usedBy saved = Some usedBy
  /\ now <= inv_expiresAt saved
  /\ (exists inv, validateToken now t table = Some inv
                  /\ saved = markUsed usedBy inv)
  /\ map inv_id table' = map inv_id table
  /\ map inv_token table' = map inv_token table
  /\ (forall later someone,
        validateToken later t table' = None
        /\ useToken later t someone table' = (None, table'))
  /\ (forall later other,
        other <> t ->
        validateToken later other table' = validateToken later other table).
Proof.
  intros Hids Htoks. unfold useToken, validateToken.
  destruct (findUnused t table) as [inv|] eqn:Hf; [|discriminate].
  destruct (Z.ltb_spec (inv_expiresAt inv) now) as [Hlt|Hge]; [discriminate|].
  cbv zeta. intros [= <- <-].
  apply findUnused_In in Hf as (Hin & Ht & Hunused).
  change (map (fun i => if inv_id i =? _ then _ else i) table)
    with (usedRows (markUsed usedBy inv) table).
  destruct (usedRows_split usedBy inv table Hids Hin)
    as (before & after & Htab & Hnew).
  rewrite Hnew.
  assert (Hgone : findUnused t (before ++ markUsed usedBy inv :: after)
                  = None).
  { apply findUnused_none. intros i Hi Hit.
    apply in_app_or in Hi as [Hi|[<-|Hi]]; [|done|]; exfalso.
    - rewrite Htab, map_app in Htoks. simpl in Htoks.
      apply NoDup_remove_2 in Htoks. apply Htoks.
      apply in_or_app. left. rewrite Ht, <- Hit. by apply in_map.
    - rewrite Htab, map_app in Htoks. simpl in Htoks.
      apply NoDup_remove_2 in Htoks. apply Htoks.
      apply in_or_app. right. rewrite Ht, <- Hit. by apply in_map. }
  split; [done|]. split; [done|]. split; [done|]. split; [simpl; lia|].
  split; [by exists inv|].
  split; [by rewrite Htab, !map_app|].
  split; [by rewrite Htab, !map_app|].
  split.
  - intros later someone. by rewrite Hgone.
  - intros later other Hne. rewrite Htab.
    rewrite (findUnused_replace other before after inv (markUsed usedBy inv));
      [done|congruence|simpl; congruence].
Qed.

Lemma invitation_is_single_use_witness :
  validateToken 5000 "inv-1" Examples.invitations = Some Examples.invitation
  /\ validateToken 6000 "inv-1"
       (snd (useToken 5000 "inv-1" Examples.carol Examples.invitations))
     = None.
Proof.
  assert (Hids : List.NoDup (map inv_id Examples.invitations)) by nodup.
  assert (Htoks : List.NoDup (map inv_token Examples.invitations)) by nodup.
  destruct (invitation_is_single_use 5000 "inv-1" Examples.carol
              Examples.invitations _ _ Hids Htoks eq_refl)
    as (_ & _ & _ & _ & _ & _ & _ & H & _).
  split; [reflexivity|]. destruct (H 6000 Examples.carol) as [Hv _]. exact Hv.
Defined.

Lemma find_filter_unique {A} (f g : A -> bool) (key : A -> string) l x :
  List.NoDup (map key l) ->
  (forall y, f y = true -> key y = key x) ->
  List.find f l = Some x ->
  List.find f (List.filter g l) = if g x then Some x else None.
Proof.
  intros Hnd Hkey. induction l as [|y l IH]; simpl; [done|].
  inversion Hnd as [|? ? Hy Hl]; subst.
  destruct (f y) eqn:Hfy.
  - intros [= ->]. destruct (g x) eqn:Hg; simpl; [by rewrite Hfy|].
    destruct (List.find f (List.filter g l)) as [z|] eqn:Hz; [|done].
    apply find_some in Hz as [Hin Hfz]. apply filter_In in Hin as [Hin _].
    exfalso. apply Hy. rewrite <- (Hkey z Hfz). by apply in_map.
  - intros Hf. destruct (g y); simpl; [rewrite Hfy|]; by apply IH.
Qed.

Lemma find_filter_none {A} (f g : A -> bool) l :
  List.find f l = None -> List.find f (List.filter g l) = None.
Proof.
  intros Hn. rewrite find_filter.
  induction l as [|y l IH]; simpl in *; [done|].
  destruct (f y); [discriminate|]. rewrite andb_false_r. by apply IH.
Qed.

(** X28: cleanupExpiredTokens removes exactly the rows whose expiry lies
    before the given time, and with unique tokens it never changes the
    verdict on a token, at that time or later. *)
Theorem cleanup_keeps_valid_invitations now table :
  List.NoDup (map inv_token table) ->
  (forall i, In i (cleanupExpiredTokens now table)
             <-> In i table /\ now <= inv_expiresAt i)
  /\ (forall later t,
        now <= later ->
        validateToken later t (cleanupExpiredTokens now table)
        = validateToken later t table).
Proof.
  intros Hnd. split.
  - intros i. unfold cleanupExpiredTokens. rewrite filter_In.
    destruct (Z.ltb_spec (inv_expiresAt i) now); simpl; split;
      intros [? ?]; split; try done; lia.
  - intros later t Hle. unfold validateToken, cleanupExpiredTokens.
    destruct (findUnused t table) as [inv|] eqn:Hf.
    + unfold findUnused in *.
      rewrite (find_filter_unique _ _ inv_token table inv Hnd); [|  |done].
      * destruct (Z.ltb_spec (inv_expiresAt inv) now) as [Hlt|Hge]; simpl;
          [|done].
        destruct (Z.ltb_spec (inv_expiresAt inv) later); [done|lia].
      * intros y Hy. apply andb_true_iff in Hy as [Hy _].
        apply String.eqb_eq in Hy.
        apply find_some in Hf as [_ Hx].
        apply andb_true_iff in Hx as [Hx _]. apply String.eqb_eq in Hx.
        congruence.
    + unfold findUnused in *. by rewrite find_filter_none.
Qed.

Lemma cleanup_keeps_valid_invitations_witness :
  cleanupExpiredTokens 5000 Examples.invitations = [Examples.invitation]
  /\ validateToken 6000 "inv-2" (cleanupExpiredTokens 5000
                                   Examples.invitations)
     = validateToken 6000 "inv-2" Examples.invitations.
Proof.
  assert (Htoks : List.NoDup (map inv_token Examples.invitations)) by nodup.
  destruct (cleanup_keeps_valid_invitations 5000 Examples.invitations Htoks)
    as [_ H].
  split; [reflexivity|]. apply H. discriminate.
Defined.

Lemma find_app_fresh {A} (f : A -> bool) l x :
  (forall y, In y l -> f y = false) -> f x = true ->
  List.find f (l ++ [x]) = Some x.
Proof.
  intros Hall Hx. induction l as [|y l IH]; simpl; [by rewrite Hx|].
  rewrite (Hall y); [|by left]. apply IH. intros z Hz. apply Hall. by right.
Qed.

(** X29: createTokenForUser issues an invitation only to a known caller
    whose roles contain the name ADMIN, and otherwise fails with 401 or 403
    without change; what it issues is unused, expires the given number of
    hours after the call, is appended to the table and, when its token is
    new, is valid until it expires. *)
Theorem createTokenForUser_admin_only
        uuid newId now users userId roles expiresInHours table :
  let out := createTokenForUser uuid newId now users userId roles
                                expiresInHours table in
  (forall e, fst out = Throw e -> snd out = table)
  /\ (nameIn "ADMIN" roles = false ->
      exists e, fst out = Throw e
                /\ (invitationStatus e = 401 \/ invitationStatus e = 403))
  /\ (forall inv, fst out = Ok inv ->
        nameIn "ADMIN" roles = true
        /\ List.find (fun u => String.eqb (pid u) userId) users
           = Some (inv_createdBy inv)
        /\ inv_token inv = uuid /\ inv_used inv = false
        /\ inv_expiresAt inv = now + expiresInHours * 3600000
        /\ snd out = table ++ [inv]
        /\ (~ In uuid (map inv_token table) ->
            forall later, later <= inv_expiresAt inv ->
                          validateToken later uuid (snd out) = Some inv)).
Proof.
  unfold createTokenForUser.
  destruct (Js.truthy userId); simpl.
  2:{ split; [done|]. split; [|discriminate]. intros _.
      exists Unauthorized. split; [done|by left]. }
  destruct (nameIn "ADMIN" roles) eqn:Hadm; simpl.
  2:{ split; [done|]. split; [|discriminate]. intros _.
      exists Forbidden. split; [done|by right]. }
  destruct (List.find _ users) as [user|] eqn:Hu; simpl.
  2:{ split; [done|]. split; [discriminate|discriminate]. }
  split; [discriminate|]. split; [discriminate|].
  intros inv [= <-]. simpl.
  split; [done|]. split; [done|]. split; [done|]. split; [done|].
  split; [lia|]. split; [done|].
  intros Hfresh later Hle. unfold validateToken, findUnused.
  rewrite find_app_fresh.
  - simpl. destruct (Z.ltb_spec (now + expiresInHours * 60 * 60 * 1000) later);
      [lia|done].
  - intros y Hy. apply andb_false_iff. left. apply String.eqb_neq.
    intros Heq. apply Hfresh. rewrite <- Heq. by apply in_map.
  - simpl. by rewrite String.eqb_refl.
Qed.

(** X30: with the roles array of a verified request, whose elements are
    the role entities of the token, neither createTokenForUser nor
    listTokensForAdmin ever succeeds: the test for the name ADMIN fails. *)
Theorem invitation_endpoints_refuse_token_roles
        uuid newId now users userId req expiresInHours table :
  (exists e, createTokenForUser uuid newId now users userId
                                (requestRoles req) expiresInHours table
             = (Throw e, table))
  /\ listTokensForAdmin (requestRoles req) table = Throw Forbidden.
Proof.
  unfold createTokenForUser, listTokensForAdmin.
  rewrite nameIn_requestRoles. simpl.
  split; [|done]. destruct (Js.truthy userId); simpl; eauto.
Qed.

End InvitationProperties.

(** ** The scenario of the specification *)




